(** * Playlist reconciliation and media lookup (utils.py)

    A shallow embedding of the two routines of [utils.py]:
    [assign_media_to_playlist] (the Playlist Reconciler) and
    [find_media_ids_for_names] (the Media Locator).

    - Values decoded from the CMS's JSON replies are Python objects of
      dynamic type; they are the inductive [pyval].
    - An uncaught Python exception is the [Raise] branch of [outcome].
    - The CMS is a function [server] from the requests sent so far and the
      current request to a reply; the routines run in a monad that threads
      the log of requests sent. *)

From Stdlib Require Import ZArith Ascii String List Bool Lia.
From stdpp Require Import base option list gmap strings.

Set Warnings "-register-all".
Local Open Scope string_scope.
Local Open Scope Z_scope.
Local Open Scope list_scope.

(** ** Python values *)

(** A Python [float]: not-a-number, an infinity, or the finite value
    [m * 2^e]. *)
Inductive pyfloat : Type :=
| FNan
| FInf (negative : bool)
| FFin (m e : Z).

(** What [json.loads] produces.  [PDict] holds the members of the JSON object
    in document order; a key written twice keeps its last value, as in the
    decoded [dict]. *)
Inductive pyval : Type :=
| PNone
| PBool (b : bool)
| PInt (z : Z)
| PFloat (f : pyfloat)
| PStr (s : string)
| PList (l : list pyval)
| PDict (d : list (string * pyval)).

(** The exceptions that the two routines can let escape. *)
Inductive pyexn : Type :=
| TypeError
| ValueError
| AttributeError
| OverflowError
| RecursionError.

Inductive outcome (A : Type) : Type :=
| Ret (a : A)
| Raise (e : pyexn).
Arguments Ret {A} a.
Arguments Raise {A} e.

(** [bool(v)] *)
Definition truthy (v : pyval) : bool :=
  match v with
  | PNone => false
  | PBool b => b
  | PInt z => negb (z =? 0)
  | PFloat FNan => true
  | PFloat (FInf _) => true
  | PFloat (FFin m _) => negb (m =? 0)
  | PStr s => negb (String.eqb s EmptyString)
  | PList l => match l with [] => false | _ :: _ => true end
  | PDict d => match d with [] => false | _ :: _ => true end
  end.

(** [a or b] *)
Definition py_or (a b : pyval) : pyval := if truthy a then a else b.

(** *** [int(x)] *)

Definition is_space (c : ascii) : bool :=
  let n := Z.of_nat (nat_of_ascii c) in
  ((9 <=? n) && (n <=? 13)) || (n =? 32).

Definition digit_val (c : ascii) : option Z :=
  let n := Z.of_nat (nat_of_ascii c) in
  if (48 <=? n) && (n <=? 57) then Some (n - 48) else None.

Fixpoint all_space (s : string) : bool :=
  match s with
  | EmptyString => true
  | String c s' => is_space c && all_space s'
  end.

Fixpoint lstrip (s : string) : string :=
  match s with
  | EmptyString => EmptyString
  | String c s' => if is_space c then lstrip s' else s
  end.

(** Decimal digits, single underscores allowed between two digits, then
    optional trailing white space.  [after_digit] tells whether the previous
    character was a digit. *)
Fixpoint digits_from (s : string) (acc : Z) (after_digit : bool) : option Z :=
  match s with
  | EmptyString => if after_digit then Some acc else None
  | String c s' =>
      match digit_val c with
      | Some d => digits_from s' (acc * 10 + d) true
      | None =>
          if Ascii.eqb c "_" then
            if after_digit then digits_from s' acc false else None
          else if after_digit && all_space s then Some acc
          else None
      end
  end.

(** [int(s)] for a [str] of ASCII characters, base ten.  The interpreter's
    configurable cap on the number of digits is not part of the model. *)
Definition int_of_str (s : string) : option Z :=
  match lstrip s with
  | String "-" s' => Z.opp <$> digits_from s' 0 false
  | String "+" s' => digits_from s' 0 false
  | s' => digits_from s' 0 false
  end.

Definition int_of_float (f : pyfloat) : outcome Z :=
  match f with
  | FNan => Raise ValueError
  | FInf _ => Raise OverflowError
  | FFin m e => Ret (if 0 <=? e then m * 2 ^ e else Z.quot m (2 ^ (- e)))
  end.

Definition py_int (v : pyval) : outcome Z :=
  match v with
  | PInt z => Ret z
  | PBool b => Ret (if b then 1 else 0)
  | PFloat f => int_of_float f
  | PStr s => match int_of_str s with Some z => Ret z | None => Raise ValueError end
  | PNone | PList _ | PDict _ => Raise TypeError
  end.

(** *** Dictionaries, iteration, membership *)

(** The value the decoded [dict] holds for [k]: the last member with that
    key. *)
Fixpoint dict_get (k : string) (d : list (string * pyval)) : option pyval :=
  match d with
  | [] => None
  | (k', v) :: d' =>
      match dict_get k d' with
      | Some v' => Some v'
      | None => if String.eqb k k' then Some v else None
      end
  end.

(** [k in d] *)
Definition dict_has (k : string) (d : list (string * pyval)) : bool :=
  match dict_get k d with Some _ => true | None => false end.

(** The keys of the decoded [dict], each once, in order of first
    appearance. *)
Fixpoint dict_keys (seen : list string) (d : list (string * pyval)) : list string :=
  match d with
  | [] => []
  | (k, _) :: d' =>
      if existsb (String.eqb k) seen then dict_keys seen d'
      else k :: dict_keys (k :: seen) d'
  end.

(** [x.get(k, dflt)]: only a [dict] has the method. *)
Definition py_get_default (x : pyval) (k : string) (dflt : pyval) : outcome pyval :=
  match x with
  | PDict d => Ret (match dict_get k d with Some v => v | None => dflt end)
  | _ => Raise AttributeError
  end.

Fixpoint chars (s : string) : list pyval :=
  match s with
  | EmptyString => []
  | String c s' => PStr (String c EmptyString) :: chars s'
  end.

(** The elements that [for x in v] (or [list.extend(v)]) visits. *)
Definition py_iter (v : pyval) : outcome (list pyval) :=
  match v with
  | PList l => Ret l
  | PStr s => Ret (chars s)
  | PDict d => Ret (PStr <$> dict_keys [] d)
  | PNone | PBool _ | PInt _ | PFloat _ => Raise TypeError
  end.

(** [v == name] for a [str] [name]. *)
Definition eq_str (v : pyval) (name : string) : bool :=
  match v with
  | PStr s => String.eqb s name
  | _ => false
  end.

Fixpoint is_prefix (p s : string) : bool :=
  match p, s with
  | EmptyString, _ => true
  | String a p', String b s' => Ascii.eqb a b && is_prefix p' s'
  | String _ _, EmptyString => false
  end.

Fixpoint is_substring (p s : string) : bool :=
  is_prefix p s ||
  match s with
  | EmptyString => false
  | String _ s' => is_substring p s'
  end.

(** [name in v] for a [str] [name]. *)
Definition py_contains (name : string) (v : pyval) : outcome bool :=
  match v with
  | PStr s => Ret (is_substring name s)
  | PList l => Ret (existsb (fun x => eq_str x name) l)
  | PDict d => Ret (dict_has name d)
  | PNone | PBool _ | PInt _ | PFloat _ => Raise TypeError
  end.

(** ** Exceptions and effects *)

Definition bind_outcome {A B : Type} (x : outcome A) (k : A -> outcome B) : outcome B :=
  match x with
  | Ret a => k a
  | Raise e => Raise e
  end.

Notation "'let?' x ':=' e 'in' k" := (bind_outcome e (fun x => k))
  (at level 10, x name, e at level 100, k at level 200).

(** ** The CMS seen from the client *)

(** The query parameter a library search is made with. *)
Inductive strategy : Type :=
| ByFileName   (* {"fileName": name} *)
| ByName       (* {"name": name} *)
| BySearch.    (* {"search": name} *)

Inductive request : Type :=
| GetPlaylist (playlist_id : Z)
    (* GET /playlist?playlistId=..&embed=widgets,regions *)
| DeleteWidget (wid : Z)
    (* DELETE /playlist/widget/{wid} *)
| AssignMedia (playlist_id : Z) (media : list Z)
    (* POST /playlist/library/assign/{playlist_id}, json={"media": media} *)
| GetLibrary (by_param : strategy) (name : string).
    (* GET /library?{param}={name} *)

(** What [r.json()] does on a response: return the decoded value, raise
    [requests.exceptions.JSONDecodeError] because the body is not JSON, or
    raise an exception of the decoder that is no [RequestException]
    ([ValueError] on an integer literal with too many digits,
    [RecursionError] on a body nested too deep). *)
Inductive json_result : Type :=
| JsonValue (v : pyval)
| JsonInvalid
| JsonRaises (e : pyexn).

(** A [requests.Response]. *)
Record response : Type := {
  status_code : Z;
  text : string;
  json : json_result
}.

(** What a call on the session does: raise a [RequestException] (connection
    error, timeout, ...) or return a response. *)
Inductive reply : Type :=
| Fails (msg : string)
| Responds (r : response).

(** The [requests.exceptions.RequestException]s the client handles. *)
Inductive request_exception : Type :=
| Transport (msg : string)
| HTTPError (status : Z)
| JSONDecodeError.

(** [r.raise_for_status()]: raises on a 4xx or 5xx status only. *)
Definition raise_for_status (r : response) : option request_exception :=
  if (400 <=? status_code r) && (status_code r <? 600)
  then Some (HTTPError (status_code r)) else None.

(** A computation that sends requests: from the log of the requests sent
    so far to its outcome and the extended log. *)
Definition io (A : Type) : Type := list request -> outcome A * list request.

Definition io_ret {A : Type} (a : A) : io A := fun lg => (Ret a, lg).

Definition io_bind {A B : Type} (x : io A) (k : A -> io B) : io B :=
  fun lg =>
    match x lg with
    | (Ret a, lg') => k a lg'
    | (Raise e, lg') => (Raise e, lg')
    end.

Definition io_lift {A : Type} (x : outcome A) : io A := fun lg => (x, lg).

Notation "'let*' x ':=' e 'in' k" := (io_bind e (fun x => k))
  (at level 10, x name, e at level 100, k at level 200).

(** ** What the routines return *)

Abbreviation widget_map := (gmap Z (list Z)).

(** One constructor per message the Reconciler formats. *)
Inductive note : Type :=
| FailedToFetch (e : request_exception)
| NotFoundOrEmpty (playlist_id : Z) (plist : pyval)
| Discovered (playlist_id : Z) (wm : widget_map)
| SkippingInvalid (mid : pyval)
| NoWidgetFound (mid_int : Z)
| RequestErrorDeleting (wid : Z) (msg : string)
| DeletedWidget (wid mid_int : Z)
| FailedToDelete (wid mid_int : Z) (status : Z) (body : string)
| AssignedNew (playlist_id : Z)
| FailedToAssign (e : request_exception)
| NoWidgetsDiscovered (playlist_id : Z)
| NothingToAssign
| AssignedCreated (playlist_id : Z).

(** The returned [dict]; Python's [None] is [PNone]. *)
Record result : Type := {
  deleted : list (Z * Z);
  assigned : pyval;
  notes : list note
}.

(** ** Building the widget map (step 2 of [assign_media_to_playlist]) *)

Definition get (d : list (string * pyval)) (k : string) : pyval :=
  default PNone (dict_get k d).

(** The inner loop [for mid in mids]: [int(mid)] is guarded, [int(wid)] is
    not. *)
Fixpoint add_refs (wid : pyval) (mids : list pyval) (wm : widget_map)
  : outcome widget_map :=
  match mids with
  | [] => Ret wm
  | mid :: mids' =>
      match py_int mid with
      | Raise _ => add_refs wid mids' wm
      | Ret mid_int =>
          let? w := py_int wid in
          add_refs wid mids' (<[mid_int := default [] (wm !! mid_int) ++ [w]]> wm)
      end
  end.

(** [wid = w.get("widgetId") or w.get("id")] *)
Definition widget_id (d : list (string * pyval)) : pyval :=
  py_or (get d "widgetId") (get d "id").

(** The value of [mids] before the inner loop. *)
Definition media_refs (d : list (string * pyval)) : pyval :=
  if dict_has "mediaIds" d && truthy (get d "mediaIds")
  then py_or (get d "mediaIds") (PList [])
  else if truthy (get d "mediaId") then PList [get d "mediaId"]
  else PList [].

(** The body of [for w in widgets]; [w.get] exists on a [dict] only. *)
Definition scan_widget (w : pyval) (wm : widget_map) : outcome widget_map :=
  match w with
  | PDict d =>
      let wid := widget_id d in
      if negb (truthy wid) then Ret wm
      else
        let? mids := py_iter (media_refs d) in
        add_refs wid mids wm
  | _ => Raise AttributeError
  end.

Fixpoint scan_widgets (widgets : list pyval) (wm : widget_map) : outcome widget_map :=
  match widgets with
  | [] => Ret wm
  | w :: widgets' =>
      let? wm' := scan_widget w wm in
      scan_widgets widgets' wm'
  end.

(** [widgets.extend(p.get(field, []) or [])] *)
Definition widgets_under (p : pyval) (field : string) : outcome (list pyval) :=
  let? v := py_get_default p field (PList []) in
  py_iter (py_or v (PList [])).

Definition build_widget_map (p : pyval) : outcome widget_map :=
  let? ws1 := widgets_under p "widgets" in
  let? ws2 := widgets_under p "newWidgets" in
  scan_widgets (ws1 ++ ws2) ∅.

(** ** The routines, against a given CMS *)

Section Client.

(** The CMS: its reply to a request may depend on every request it has
    received before.  The base URL, the headers and the timeout are the
    same in every call and are left out of [request]. *)
Variable server : list request -> request -> reply.

(** One call on the session. *)
Definition send (rq : request) : io reply :=
  fun lg => (Ret (server lg rq), lg ++ [rq]).

(** [r = session.X(..); r.raise_for_status(); r.json()] under
    [except requests.exceptions.RequestException]: [inl] is the exception
    caught, and an exception of [r.json()] that is no [RequestException]
    is not caught. *)
Definition decode (rp : reply) : outcome (request_exception + pyval) :=
  match rp with
  | Fails msg => Ret (inl (Transport msg))
  | Responds r =>
      match raise_for_status r with
      | Some e => Ret (inl e)
      | None =>
          match json r with
          | JsonValue v => Ret (inr v)
          | JsonInvalid => Ret (inl JSONDecodeError)
          | JsonRaises e => Raise e
          end
      end
  end.

Definition call_json (rq : request) : io (request_exception + pyval) :=
  let* rp := send rq in
  io_lift (decode rp).

(** *** Step 3: deleting the widgets of the old media *)

(** The local variables [deleted] and [notes]. *)
Record progress : Type := {
  p_deleted : list (Z * Z);
  p_notes : list note
}.

Definition add_note (n : note) (st : progress) : progress :=
  {| p_deleted := p_deleted st; p_notes := p_notes st ++ [n] |}.

(** The body of [for wid in wids] once the delete call has been made. *)
Definition record_delete (mid_int wid : Z) (rp : reply) (st : progress) : progress :=
  match rp with
  | Fails msg => add_note (RequestErrorDeleting wid msg) st
  | Responds dr =>
      if (status_code dr =? 200) || (status_code dr =? 204) then
        {| p_deleted := p_deleted st ++ [(mid_int, wid)];
           p_notes := p_notes st ++ [DeletedWidget wid mid_int] |}
      else
        add_note (FailedToDelete wid mid_int (status_code dr) (text dr)) st
  end.

Fixpoint delete_widgets (mid_int : Z) (wids : list Z) (st : progress) : io progress :=
  match wids with
  | [] => io_ret st
  | wid :: wids' =>
      let* rp := send (DeleteWidget wid) in
      delete_widgets mid_int wids' (record_delete mid_int wid rp st)
  end.

(** [for mid in old_media_ids or []]; [None] and the empty list behave
    alike. *)
Fixpoint delete_old (wm : widget_map) (old_media_ids : list pyval) (st : progress)
  : io progress :=
  match old_media_ids with
  | [] => io_ret st
  | mid :: rest =>
      match py_int mid with
      | Raise _ => delete_old wm rest (add_note (SkippingInvalid mid) st)
      | Ret mid_int =>
          match default [] (wm !! mid_int) with
          | [] => delete_old wm rest (add_note (NoWidgetFound mid_int) st)
          | wids =>
              let* st' := delete_widgets mid_int wids st in
              delete_old wm rest st'
          end
      end
  end.

(** *** Steps 4 and 5: assigning the new media *)

(** Step 4, after the deletions. *)
Definition assign_after_delete (playlist_id : Z) (new_media_ids : list Z)
    (st : progress) : io result :=
  match new_media_ids with
  | [] => io_ret {| deleted := p_deleted st; assigned := PNone; notes := p_notes st |}
  | _ :: _ =>
      let* ar := call_json (AssignMedia playlist_id new_media_ids) in
      match ar with
      | inr payload =>
          io_ret {| deleted := p_deleted st; assigned := payload;
                    notes := p_notes st ++ [AssignedNew playlist_id] |}
      | inl e =>
          io_ret {| deleted := p_deleted st; assigned := PNone;
                    notes := p_notes st ++ [FailedToAssign e] |}
      end
  end.

(** Step 5, when no widget was discovered. *)
Definition assign_directly (playlist_id : Z) (new_media_ids : list Z)
    (st : progress) : io result :=
  let st := add_note (NoWidgetsDiscovered playlist_id) st in
  match new_media_ids with
  | [] =>
      io_ret {| deleted := p_deleted st; assigned := PNone;
                notes := p_notes st ++ [NothingToAssign] |}
  | _ :: _ =>
      let* ar := call_json (AssignMedia playlist_id new_media_ids) in
      match ar with
      | inr payload =>
          io_ret {| deleted := p_deleted st; assigned := payload;
                    notes := p_notes st ++ [AssignedCreated playlist_id] |}
      | inl e =>
          io_ret {| deleted := p_deleted st; assigned := PNone;
                    notes := p_notes st ++ [FailedToAssign e] |}
      end
  end.

(** Steps 2 to 5, on the first element [p] of the fetched list. *)
Definition reconcile_playlist (playlist_id : Z) (new_media_ids : list Z)
    (old_media_ids : list pyval) (p : pyval) : io result :=
  let st := {| p_deleted := []; p_notes := [] |} in
  let* wm := io_lift (build_widget_map p) in
  if decide (wm = ∅) then assign_directly playlist_id new_media_ids st
  else
    let* st' := delete_old wm old_media_ids
                  (add_note (Discovered playlist_id wm) st) in
    assign_after_delete playlist_id new_media_ids st'.

Definition assign_media_to_playlist (playlist_id : Z) (new_media_ids : list Z)
    (old_media_ids : list pyval) : io result :=
  let* fetched := call_json (GetPlaylist playlist_id) in
  match fetched with
  | inl e =>
      io_ret {| deleted := []; assigned := PNone; notes := [FailedToFetch e] |}
  | inr (PList (p :: _)) =>
      reconcile_playlist playlist_id new_media_ids old_media_ids p
  | inr plist =>
      io_ret {| deleted := []; assigned := PNone;
                notes := [NotFoundOrEmpty playlist_id plist] |}
  end.

(** *** The Locator *)

(** [mid = item.get("mediaId") or item.get("media_id") or item.get("id")] *)
Definition media_id_of (d : list (string * pyval)) : pyval :=
  py_or (py_or (get d "mediaId") (get d "media_id")) (get d "id").

(** The condition of the second [if] of the item loop. *)
Definition matches (d : list (string * pyval)) (name : string) : outcome bool :=
  if eq_str (get d "fileName") name then Ret true
  else if eq_str (get d "name") name then Ret true
  else py_contains name (py_or (get d "fileName") (PStr EmptyString)).

(** The body of [for item in data]; [found] is [result[name]]. *)
Definition scan_item (name : string) (item : pyval) (found : list Z)
  : outcome (list Z) :=
  match item with
  | PDict d =>
      let mid := media_id_of d in
      if negb (truthy mid) then Ret found
      else
        let? hit := matches d name in
        if hit then
          let? i := py_int mid in
          Ret (found ++ [i])
        else Ret found
  | _ => Raise AttributeError
  end.

Fixpoint scan_items (name : string) (items : list pyval) (found : list Z)
  : outcome (list Z) :=
  match items with
  | [] => Ret found
  | item :: items' =>
      let? found' := scan_item name item found in
      scan_items name items' found'
  end.

(** The [try] block of one attempt: [None] is [continue]; [except Exception]
    catches whatever the request or [r.json()] raises. *)
Definition library_data (rp : reply) : option pyval :=
  match rp with
  | Fails _ => None
  | Responds r =>
      if negb (status_code r =? 200) then None
      else
        match json r with
        | JsonValue data => Some data
        | JsonInvalid | JsonRaises _ => None
        end
  end.

(** [for params in tried] *)
Fixpoint lookup (name : string) (tried : list strategy) (found : list Z)
  : io (list Z) :=
  match tried with
  | [] => io_ret found
  | by_param :: rest =>
      let* rp := send (GetLibrary by_param name) in
      match library_data rp with
      | None => lookup name rest found
      | Some data =>
          let* items := io_lift (py_iter data) in
          let* found' := io_lift (scan_items name items found) in
          match found' with
          | _ :: _ => io_ret found'
          | [] => lookup name rest found'
          end
      end
  end.

Definition tried : list strategy := [ByFileName; ByName; BySearch].

(** [for name in filenames] *)
Fixpoint find_loop (filenames : list string) (res : gmap string (list Z))
  : io (gmap string (list Z)) :=
  match filenames with
  | [] => io_ret res
  | name :: rest =>
      let* found := lookup name tried [] in
      find_loop rest (<[name := found]> res)
  end.

Definition find_media_ids_for_names (filenames : list string)
  : io (gmap string (list Z)) :=
  find_loop filenames ∅.

End Client.

(** ** The references a playlist exposes *)

(** The specification's view of step 2: a playlist exposes a sequence of
    (mediaId, widgetId) references, read off its widgets in scan order, and
    the widget map groups them by mediaId. *)

Definition int_opt (v : pyval) : option Z :=
  match py_int v with Ret z => Some z | Raise _ => None end.

Definition elements_of (v : pyval) : list pyval :=
  match py_iter v with Ret l => l | Raise _ => [] end.

Definition is_ret {A : Type} (x : outcome A) : bool :=
  match x with Ret _ => true | Raise _ => false end.

(** The references of one widget: its identifier paired with every integer
    media reference of its plural field or, failing that, of its singular
    field. *)
Definition refs_of_widget (w : pyval) : list (Z * Z) :=
  match w with
  | PDict d =>
      if truthy (widget_id d) then
        match int_opt (widget_id d) with
        | Some wid =>
            omap (fun mid => (fun m => (m, wid)) <$> int_opt mid)
                 (elements_of (media_refs d))
        | None => []
        end
      else []
  | _ => []
  end.

(** The widgets under both collection names, ["widgets"] first. *)
Definition widgets_of (p : pyval) : list pyval :=
  match widgets_under p "widgets", widgets_under p "newWidgets" with
  | Ret ws1, Ret ws2 => ws1 ++ ws2
  | _, _ => []
  end.

Definition all_refs (p : pyval) : list (Z * Z) :=
  flat_map refs_of_widget (widgets_of p).

(** The widgets referencing [m], with multiplicity, in scan order. *)
Definition wids_for (m : Z) (refs : list (Z * Z)) : list Z :=
  snd <$> List.filter (fun r => fst r =? m) refs.

(** A widget the scan accepts: a [dict] whose identifier is absent or
    integer-coercible and whose media references can be iterated. *)
Definition well_formed_widget (w : pyval) : bool :=
  match w with
  | PDict d =>
      negb (truthy (widget_id d))
      || (is_ret (py_int (widget_id d)) && is_ret (py_iter (media_refs d)))
  | _ => false
  end.

Definition well_formed_playlist (p : pyval) : bool :=
  is_ret (widgets_under p "widgets")
  && is_ret (widgets_under p "newWidgets")
  && forallb well_formed_widget (widgets_of p).

(** [wm] holds exactly the references [refs], grouped by media id. *)
Definition represents (wm : widget_map) (refs : list (Z * Z)) : Prop :=
  forall m, wm !! m = match wids_for m refs with [] => None | l => Some l end.


(** ** The deletion loop, request by request *)

(** The (mediaId, widgetId) pairs the loop of step 3 visits, in order: for
    each integer-coercible old media id, the widgets the map lists for it. *)
Definition targets (wm : widget_map) (old_media_ids : list pyval) : list (Z * Z) :=
  flat_map
    (fun mid =>
       match int_opt mid with
       | Some m => (fun w => (m, w)) <$> default [] (wm !! m)
       | None => []
       end)
    old_media_ids.

Definition delete_requests (ts : list (Z * Z)) : list request :=
  (fun t => DeleteWidget (snd t)) <$> ts.

(** A successful deletion: a response with status 200 or 204. *)
Definition succeeded (rp : reply) : bool :=
  match rp with
  | Responds dr => (status_code dr =? 200) || (status_code dr =? 204)
  | Fails _ => false
  end.

(** The note that tells how the deletion of [w] for media [m] went. *)
Definition attempt_note (a : Z * Z * reply) : note :=
  let '(m, w, rp) := a in
  match rp with
  | Fails msg => RequestErrorDeleting w msg
  | Responds dr =>
      if succeeded rp then DeletedWidget w m
      else FailedToDelete w m (status_code dr) (text dr)
  end.

Definition successes (atts : list (Z * Z * reply)) : list (Z * Z) :=
  fst <$> List.filter (fun a => succeeded (snd a)) atts.

Section Replay.

Variable server : list request -> request -> reply.

(** Each visited pair with the CMS's reply to its delete request, when the
    requests are sent one after the other starting from log [lg]. *)
Fixpoint attempts (lg : list request) (ts : list (Z * Z)) : list (Z * Z * reply) :=
  match ts with
  | [] => []
  | (m, w) :: ts' =>
      (m, w, server lg (DeleteWidget w)) :: attempts (lg ++ [DeleteWidget w]) ts'
  end.

End Replay.

(** ** The outcome of the initial fetch *)

Definition is_nonempty_list (v : pyval) : bool :=
  match v with
  | PList (_ :: _) => true
  | _ => false
  end.

(** A reply to the playlist fetch that ends the call: the request raised,
    the status is 4xx or 5xx, the body is not JSON, or it decodes to
    something other than a non-empty list. *)
Definition terminal_reply (rp : reply) : Prop :=
  match rp with
  | Fails _ => True
  | Responds r =>
      400 <= status_code r < 600
      \/ match json r with
         | JsonValue v => is_nonempty_list v = false
         | JsonInvalid => True
         | JsonRaises _ => False
         end
  end.

(** ** How the reply to a decoded call reads *)

(** The three readings below are stated on the reply itself: the request
    raised, the status is 4xx or 5xx, or the body is what it is. *)

Definition status_is_error (r : response) : Prop :=
  400 <= status_code r < 600.

(** The call yields the value [v]. *)
Definition reply_value (rp : reply) (v : pyval) : Prop :=
  match rp with
  | Fails _ => False
  | Responds r => ~ status_is_error r /\ json r = JsonValue v
  end.

(** The call fails with the request exception [e]: the request raised, the
    status is 4xx or 5xx, or the body is not JSON. *)
Definition reply_error (rp : reply) (e : request_exception) : Prop :=
  match rp with
  | Fails msg => e = Transport msg
  | Responds r =>
      (status_is_error r /\ e = HTTPError (status_code r))
      \/ (~ status_is_error r /\ json r = JsonInvalid /\ e = JSONDecodeError)
  end.

(** Decoding the body raises [e], which is no request exception. *)
Definition reply_breaks (rp : reply) (e : pyexn) : Prop :=
  match rp with
  | Fails _ => False
  | Responds r => ~ status_is_error r /\ json r = JsonRaises e
  end.

(** ** The Locator, attempt by attempt *)

(** The records one attempt offers to the item loop; an attempt that fails
    or is not answered with status 200 offers none. *)
Definition records_of (rp : reply) : outcome (list pyval) :=
  match library_data rp with
  | None => Ret []
  | Some data => py_iter data
  end.

(** A record that counts for [name]: it carries an identifier and matches
    the name. *)
Definition is_hit (name : string) (item : pyval) : bool :=
  match item with
  | PDict d =>
      truthy (media_id_of d)
      && match matches d name with Ret b => b | Raise _ => false end
  | _ => false
  end.

(** An attempt that yields nothing and lets the next strategy run: its
    records can be iterated, none of them counts, and scanning them raises
    no exception. *)
Definition no_match (name : string) (rp : reply) : Prop :=
  exists items,
    records_of rp = Ret items
    /\ existsb (is_hit name) items = false
    /\ is_ret (scan_items name items []) = true.

Definition library_requests (name : string) (bys : list strategy) : list request :=
  (fun b => GetLibrary b name) <$> bys.

(** ** Identifiers that read as missing *)

(** A field that is absent or holds the integer 0. *)
Definition zero_or_absent (o : option pyval) : Prop :=
  o = None \/ o = Some (PInt 0).

(** A widget whose [widgetId] is 0 and whose [id] is absent or 0. *)
Definition zero_widget_id (d : list (string * pyval)) : Prop :=
  dict_get "widgetId" d = Some (PInt 0) /\ zero_or_absent (dict_get "id" d).

(** ** Scenarios *)

Definition ok_json (v : pyval) : response :=
  {| status_code := 200; text := EmptyString; json := JsonValue v |}.

Definition no_content : response :=
  {| status_code := 204; text := EmptyString; json := JsonInvalid |}.

(** A CMS whose replies depend on the request only. *)
Definition cms (playlist_reply : reply) (delete_reply : Z -> reply)
    (assign_reply : reply) (library_reply : strategy -> string -> reply)
  : list request -> request -> reply :=
  fun _ rq =>
    match rq with
    | GetPlaylist _ => playlist_reply
    | DeleteWidget wid => delete_reply wid
    | AssignMedia _ _ => assign_reply
    | GetLibrary by_param name => library_reply by_param name
    end.

(** One widget with the singular field under ["widgets"], one with the
    plural field under ["newWidgets"]; the second references media 5 twice
    and holds a reference that is not an integer. *)
Definition mixed_playlist : pyval :=
  PDict
    [("widgets", PList [PDict [("widgetId", PInt 10); ("mediaId", PInt 5)]]);
     ("newWidgets",
      PList [PDict [("id", PInt 11);
                    ("mediaIds", PList [PInt 5; PInt 6; PStr "x"; PInt 5])]])].

(** Widgets 10 and 11 both show media 5. *)
Definition two_widget_playlist : pyval :=
  PDict
    [("widgets",
      PList [PDict [("widgetId", PInt 10); ("mediaId", PInt 5)];
             PDict [("widgetId", PInt 11); ("mediaId", PInt 5)]])].

(** A playlist without widgets. *)
Definition fresh_playlist : pyval := PDict [("widgets", PList [])].

(** A widget whose identifier is text that is not a number. *)
Definition bad_widget_playlist : pyval :=
  PDict
    [("widgets", PList [PDict [("widgetId", PStr "abc"); ("mediaId", PInt 5)]])].

Definition serving (status : Z) (p : pyval) : reply :=
  Responds {| status_code := status; text := EmptyString; json := JsonValue (PList [p]) |}.

(** Deleting widget 10 times out; every other deletion succeeds. *)
Definition flaky_delete (wid : Z) : reply :=
  if wid =? 10 then Fails "timeout" else Responds no_content.

Definition empty_library (_ : strategy) (_ : string) : reply :=
  Responds (ok_json (PList [])).

(** The CMS answers the playlist fetch with [status] and [playlist]. *)
Definition playlist_cms (status : Z) (playlist : pyval) : list request -> request -> reply :=
  cms (serving status playlist) flaky_delete
      (Responds (ok_json (PDict []))) empty_library.

(** A response whose body holds an integer literal of 4301 digits:
    [r.json()] raises [ValueError]. *)
Definition overlong_number : response :=
  {| status_code := 200; text := EmptyString; json := JsonRaises ValueError |}.

(** As [playlist_cms] with status 200, with the reply to the assign call
    given. *)
Definition assigning_cms (playlist : pyval) (assign_reply : reply)
  : list request -> request -> reply :=
  cms (serving 200 playlist) flaky_delete assign_reply empty_library.

(** The CMS answers the playlist fetch with the overlong number. *)
Definition overlong_fetch_cms : list request -> request -> reply :=
  cms (Responds overlong_number) flaky_delete
      (Responds (ok_json (PDict []))) empty_library.

(** The CMS refuses the playlist fetch. *)
Definition refusing_cms : list request -> request -> reply :=
  cms (Responds {| status_code := 503; text := "busy"; json := JsonInvalid |})
      flaky_delete (Responds (ok_json (PDict []))) empty_library.



(** A library whose by-filename and by-name searches find nothing. *)
Definition library_by_search (by_param : strategy) (name : string) : reply :=
  match by_param with
  | ByFileName => Responds (ok_json (PList []))
  | ByName => Responds {| status_code := 500; text := EmptyString; json := JsonInvalid |}
  | BySearch =>
      Responds (ok_json (PList [PDict [("mediaId", PInt 7);
                                       ("fileName", PStr ("_api_" +:+ name))]]))
  end.

(** A library whose record carries an identifier that is not a number. *)
Definition library_bad_id (_ : strategy) (name : string) : reply :=
  Responds (ok_json (PList [PDict [("mediaId", PStr "abc");
                                   ("fileName", PStr name)]])).

Definition library_cms (library_reply : strategy -> string -> reply)
  : list request -> request -> reply :=
  cms (Fails "unused") flaky_delete (Fails "unused") library_reply.


(** ** The item loop as a selection *)

(** The identifier a record contributes for [name], if it counts. *)
Definition hit_id (name : string) (item : pyval) : option Z :=
  match item with
  | PDict d => if is_hit name item then int_opt (media_id_of d) else None
  | _ => None
  end.

(** An attempt that brings nothing, read off the reply: the request
    raised, the status is not 200, the body does not decode (whatever
    [r.json()] raises), or it decodes to the empty list. *)
Definition attempt_is_empty (rp : reply) : Prop :=
  match rp with
  | Fails _ => True
  | Responds r =>
      status_code r <> 200
      \/ (forall v, json r <> JsonValue v)
      \/ json r = JsonValue (PList [])
  end.

(** A request the Locator may send for one of [names]. *)
Definition library_request_for (names : list string) (rq : request) : Prop :=
  match rq with
  | GetLibrary _ name => name ∈ names
  | _ => False
  end.

(** * The sync driver (update_dashboard.py) *)

(** The driver is a script; an exception it does not handle ends it. *)
Inductive script_exn : Type :=
| KeyError (key : string)
| Uncaught (e : pyexn).

(** [x[k]] for a [str] key [k]: a [dict] looks the key up, anything else
    raises [TypeError]. *)
Definition py_index (x : pyval) (k : string) : script_exn + pyval :=
  match x with
  | PDict d =>
      match dict_get k d with
      | Some v => inr v
      | None => inl (KeyError k)
      end
  | _ => inl (Uncaught TypeError)
  end.

(** [f == g] on floats: the values [m1 * 2^e1] and [m2 * 2^e2] are compared
    after scaling both to the smaller exponent. *)
Definition float_eq (f g : pyfloat) : bool :=
  match f, g with
  | FFin m1 e1, FFin m2 e2 =>
      let k := Z.min e1 e2 in
      m1 * 2 ^ (e1 - k) =? m2 * 2 ^ (e2 - k)
  | FInf a, FInf b => Bool.eqb a b
  | _, _ => false
  end.

(** [f == v] for a float [f]: numbers compare by value, anything else is
    different. *)
Definition float_eq_val (f : pyfloat) (v : pyval) : bool :=
  match v with
  | PFloat g => float_eq f g
  | PInt z => float_eq f (FFin z 0)
  | PBool b => float_eq f (FFin (if b then 1 else 0) 0)
  | PNone | PStr _ | PList _ | PDict _ => false
  end.

(** [l.remove(x)]: drops the first element equal to [x]. *)
Fixpoint remove_first (x : string) (l : list string) : list string :=
  match l with
  | [] => []
  | y :: l' => if String.eqb x y then l' else y :: remove_first x l'
  end.

(** The three lists of the scan: [target_files], [files_to_replace],
    [files_to_remove]. *)
Record changes : Type := {
  target_files : list string;
  files_to_replace : list pyval;
  files_to_remove : list pyval
}.

(** One entry of the manifest written at the end. *)
Record known_file : Type := {
  kf_name : string;
  kf_timestamp : pyfloat;
  kf_formatname : string
}.

Section Driver.

(** [os.path.getmtime(os.path.join(target_path, name))] for a file of the
    directory; the listed files are taken to be still there when their time
    is read. *)
Variable mtime : string -> pyfloat.

(** [files_to_remove.append(item['formatname'])] *)
Definition mark_removed (item : pyval) (ch : changes) : script_exn + changes :=
  match py_index item "formatname" with
  | inl e => inl e
  | inr fmt =>
      inr {| target_files := target_files ch;
             files_to_replace := files_to_replace ch;
             files_to_remove := files_to_remove ch ++ [fmt] |}
  end.

(** The body of [for item in data] (lines 34 to 41). *)
Definition check_item (item : pyval) (ch : changes) : script_exn + changes :=
  match py_index item "name" with
  | inl e => inl e
  | inr (PStr s) =>
      if existsb (String.eqb s) (target_files ch) then
        match py_index item "timestamp" with
        | inl e => inl e
        | inr ts =>
            if float_eq_val (mtime s) ts then
              inr {| target_files := remove_first s (target_files ch);
                     files_to_replace := files_to_replace ch;
                     files_to_remove := files_to_remove ch |}
            else
              match py_index item "formatname" with
              | inl e => inl e
              | inr fmt =>
                  inr {| target_files := target_files ch;
                         files_to_replace := files_to_replace ch ++ [fmt];
                         files_to_remove := files_to_remove ch |}
              end
        end
      else mark_removed item ch
  | inr _ => mark_removed item ch
  end.

Fixpoint scan_known (items : list pyval) (ch : changes) : script_exn + changes :=
  match items with
  | [] => inr ch
  | item :: items' =>
      match check_item item ch with
      | inl e => inl e
      | inr ch' => scan_known items' ch'
      end
  end.

(** Lines 23 to 46.  [known] is the decoded content of known_files.json, or
    [None] when the file is missing or is not JSON. *)
Definition diff_known_files (listing : list string) (known : option pyval)
  : script_exn + changes :=
  let ch := {| target_files := listing; files_to_replace := [];
               files_to_remove := [] |} in
  match known with
  | None => inr ch
  | Some data =>
      match py_iter data with
      | Raise e => inl (Uncaught e)
      | Ret items => scan_known items ch
      end
  end.

(** The test of line 50: the script exits. *)
Definition no_changes (ch : changes) : bool :=
  (length (target_files ch) =? 0)%nat && (length (files_to_remove ch) =? 0)%nat.

(** Lines 140 to 149: the manifest to write. *)
Fixpoint build_manifest (all_files : list string)
    (new_format_names : gmap string string) : script_exn + list known_file :=
  match all_files with
  | [] => inr []
  | f :: rest =>
      match new_format_names !! f with
      | None => inl (KeyError f)
      | Some fmt =>
          match build_manifest rest new_format_names with
          | inl e => inl e
          | inr out =>
              inr ({| kf_name := f; kf_timestamp := mtime f;
                      kf_formatname := fmt |} :: out)
          end
      end
  end.

(** A manifest entry that says [n] is unchanged. *)
Definition known_unchanged (n : string) (item : pyval) : bool :=
  match item with
  | PDict d => eq_str (get d "name") n && float_eq_val (mtime n) (get d "timestamp")
  | _ => false
  end.

End Driver.

(** The entries of the decoded manifest. *)
Definition known_items (known : option pyval) : list pyval :=
  match known with
  | Some data => elements_of data
  | None => []
  end.

(** The name a manifest entry is filed under. *)
Definition item_name (item : pyval) : pyval :=
  match item with
  | PDict d => get d "name"
  | _ => PNone
  end.

(** *** The playlist to update (lines 98 to 101) *)

Definition dashboard_name : string := "Shop Dashboard Test".

(** [playlist_id] is [None] as long as the variable is unbound. *)
Fixpoint select_playlist (playlists : list pyval) (playlist_id : option pyval)
  : script_exn + option pyval :=
  match playlists with
  | [] => inr playlist_id
  | pl :: rest =>
      match py_index pl "name" with
      | inl e => inl e
      | inr n =>
          if eq_str n dashboard_name then
            match py_index pl "playlistId" with
            | inl e => inl e
            | inr i => select_playlist rest (Some i)
            end
          else select_playlist rest playlist_id
      end
  end.

Definition find_playlist_id (playlists : pyval) : script_exn + option pyval :=
  match py_iter playlists with
  | Raise e => inl (Uncaught e)
  | Ret pls => select_playlist pls None
  end.

(** The identifier a playlist of the wanted name gives. *)
Definition named_id (pl : pyval) : option pyval :=
  match pl with
  | PDict d =>
      if eq_str (get d "name") dashboard_name then dict_get "playlistId" d
      else None
  | _ => None
  end.

(** *** Format names (lines 105 to 107) *)

(** [s.replace(c, '')] for a one-character [c] *)
Fixpoint str_remove (c : ascii) (s : string) : string :=
  match s with
  | EmptyString => EmptyString
  | String a s' =>
      if Ascii.eqb a c then str_remove c s' else String a (str_remove c s')
  end.

(** [s[:n]] *)
Fixpoint str_take (n : nat) (s : string) : string :=
  match n, s with
  | S n', String a s' => String a (str_take n' s')
  | _, _ => EmptyString
  end.

Fixpoint has_char (c : ascii) (s : string) : bool :=
  match s with
  | EmptyString => false
  | String a s' => Ascii.eqb a c || has_char c s'
  end.

Section FormatName.

(** [os.path.splitext(fn)[0]] *)
Variable stem_of : string -> string.

(** [str(datetime.now())] at the time of the call *)
Variable now : string.

Definition get_format_name (fn : string) : string :=
  let strtime :=
    str_take 14 (str_remove " " (str_remove ":" (str_remove "-" now))) in
  "_api_" +:+ str_take 10 (str_remove " " (stem_of fn)) +:+ "_" +:+ strtime.

End FormatName.

(** ** More scenarios *)

(** A library whose attempts all come to nothing, each in its own way: the
    by-filename request times out, the by-name request is refused with
    status 500 although its body names the file, and the by-search request
    is answered with a body that does not decode or with the empty list. *)
Definition library_in_trouble (by_param : strategy) (name : string) : reply :=
  match by_param with
  | ByFileName => Fails "timeout"
  | ByName =>
      Responds {| status_code := 500; text := EmptyString;
                  json := JsonValue (PList [PDict [("mediaId", PInt 7);
                                                   ("fileName", PStr name)]]) |}
  | BySearch =>
      if String.eqb name "a.mp4" then Responds overlong_number
      else if String.eqb name "b.mp4" then
        Responds {| status_code := 200; text := EmptyString;
                    json := JsonInvalid |}
      else Responds (ok_json (PList []))
  end.

(** Two records that count for "a.mp4" around one that has no identifier. *)
Definition three_records : list pyval :=
  [PDict [("mediaId", PInt 7); ("fileName", PStr "a.mp4")];
   PDict [("fileName", PStr "a.mp4")];
   PDict [("id", PStr "8"); ("name", PStr "a.mp4")]].

(** A directory with an unchanged, a changed and a new file, and a manifest
    that also knows a file that is gone. *)
Definition demo_listing : list string := ["a.mp4"; "b.mp4"; "c.mp4"].

Definition demo_mtime (n : string) : pyfloat :=
  if String.eqb n "a.mp4" then FFin 3 1 else FFin 5 0.

Definition demo_manifest : pyval :=
  PList
    [PDict [("name", PStr "a.mp4"); ("timestamp", PFloat (FFin 6 0));
            ("formatname", PStr "_api_a_1")];
     PDict [("name", PStr "b.mp4"); ("timestamp", PFloat (FFin 1 0));
            ("formatname", PStr "_api_b_1")];
     PDict [("name", PStr "gone.mp4"); ("timestamp", PInt 2);
            ("formatname", PStr "_api_gone_1")]].

Definition demo_changes : changes :=
  {| target_files := ["b.mp4"; "c.mp4"];
     files_to_replace := [PStr "_api_b_1"];
     files_to_remove := [PStr "_api_gone_1"] |}.

(** The format names recorded while uploading "b.mp4" and "c.mp4". *)
Definition demo_format_names : gmap string string :=
  <["b.mp4" := "_api_b_2"]> (<["c.mp4" := "_api_c_2"]> ∅).

(** A directory whose only file is unchanged. *)
Definition quiet_manifest : pyval :=
  PList
    [PDict [("name", PStr "a.mp4"); ("timestamp", PFloat (FFin 6 0));
            ("formatname", PStr "_api_a_1")]].

Definition demo_playlists : pyval :=
  PList
    [PDict [("name", PStr "Shop Dashboard Test"); ("playlistId", PInt 3)];
     PDict [("name", PStr "Lobby"); ("playlistId", PInt 4)];
     PDict [("name", PStr "Shop Dashboard Test"); ("playlistId", PInt 9)]].
(** * Properties *)

(** ** Coercion to integers, on examples *)

Example int_of_str_plain : int_of_str "42" = Some 42.
Proof. reflexivity. Qed.
Example int_of_str_signed_padded : int_of_str "  -1_000 " = Some (-1000).
Proof. reflexivity. Qed.
Example int_of_str_word : int_of_str "abc" = None.
Proof. reflexivity. Qed.
Example int_of_str_empty : int_of_str EmptyString = None.
Proof. reflexivity. Qed.
Example int_of_float_trunc : int_of_float (FFin (-7) (-1)) = Ret (-3).
Proof. reflexivity. Qed.

(** ** Properties of the widget map *)

Lemma wids_for_app m refs1 refs2 :
  wids_for m (refs1 ++ refs2) = wids_for m refs1 ++ wids_for m refs2.
Proof. unfold wids_for. rewrite List.filter_app. apply fmap_app. Qed.

Lemma represents_empty : represents ∅ [].
Proof. intros m. apply lookup_empty. Qed.

Lemma represents_default wm refs m :
  represents wm refs -> default [] (wm !! m) = wids_for m refs.
Proof. intros H. rewrite (H m). by destruct (wids_for m refs). Qed.

Lemma wids_for_one m k w :
  wids_for m [(k, w)] = if k =? m then [w] else [].
Proof. unfold wids_for. simpl. by destruct (k =? m). Qed.

(** [widget_map.setdefault(k, []).append(w)] adds the reference [(k, w)]. *)
Lemma represents_snoc wm refs k w :
  represents wm refs ->
  represents (<[k := default [] (wm !! k) ++ [w]]> wm) (refs ++ [(k, w)]).
Proof.
  intros H m. rewrite wids_for_app, wids_for_one.
  destruct (decide (k = m)) as [->|Hne].
  - rewrite lookup_insert_eq, (represents_default _ _ _ H), Z.eqb_refl.
    by destruct (wids_for m refs).
  - rewrite lookup_insert_ne by done. rewrite (H m).
    destruct (Z.eqb_spec k m) as [?|_]; [done|].
    by rewrite app_nil_r.
Qed.

Lemma add_refs_represents wid w mids : forall wm refs,
  py_int wid = Ret w ->
  represents wm refs ->
  exists wm',
    add_refs wid mids wm = Ret wm'
    /\ represents wm'
         (refs ++ omap (fun mid => (fun m => (m, w)) <$> int_opt mid) mids).
Proof.
  induction mids as [|mid mids IH]; intros wm refs Hw Hrep; simpl.
  - exists wm. by rewrite app_nil_r.
  - unfold int_opt at 1. destruct (py_int mid) as [k|e]; simpl.
    + rewrite Hw. simpl.
      destruct (IH _ _ Hw (represents_snoc _ _ k w Hrep)) as (wm' & Hrun & Hrep').
      exists wm'. split; [done|]. by rewrite <- app_assoc in Hrep'.
    + by apply IH.
Qed.

Lemma scan_widget_represents w wm refs :
  well_formed_widget w = true ->
  represents wm refs ->
  exists wm',
    scan_widget w wm = Ret wm' /\ represents wm' (refs ++ refs_of_widget w).
Proof.
  intros Hwf Hrep. destruct w as [| | | | |?|d]; try discriminate.
  simpl in *. destruct (truthy (widget_id d)); simpl in *.
  - apply andb_prop in Hwf as [Hid Hit].
    unfold int_opt at 1, elements_of.
    destruct (py_int (widget_id d)) as [wid|] eqn:Hwid; [|discriminate].
    destruct (py_iter (media_refs d)) as [mids|]; [|discriminate].
    simpl. by apply add_refs_represents.
  - exists wm. by rewrite app_nil_r.
Qed.

Lemma scan_widgets_represents ws : forall wm refs,
  forallb well_formed_widget ws = true ->
  represents wm refs ->
  exists wm',
    scan_widgets ws wm = Ret wm'
    /\ represents wm' (refs ++ flat_map refs_of_widget ws).
Proof.
  induction ws as [|w ws IH]; intros wm refs Hwf Hrep; simpl in *.
  - exists wm. by rewrite app_nil_r.
  - apply andb_prop in Hwf as [Hw Hws].
    destruct (scan_widget_represents w wm refs Hw Hrep) as (wm1 & -> & Hrep1).
    simpl. destruct (IH _ _ Hws Hrep1) as (wm' & Hrun & Hrep').
    exists wm'. split; [done|]. by rewrite <- app_assoc in Hrep'.
Qed.

Lemma build_widget_map_represents p :
  well_formed_playlist p = true ->
  exists wm, build_widget_map p = Ret wm /\ represents wm (all_refs p).
Proof.
  unfold well_formed_playlist, build_widget_map, all_refs, widgets_of.
  intros Hwf. apply andb_prop in Hwf as [Hwf Hall].
  apply andb_prop in Hwf as [H1 H2].
  destruct (widgets_under p "widgets") as [ws1|]; [|discriminate].
  destruct (widgets_under p "newWidgets") as [ws2|]; [|discriminate].
  simpl. apply (scan_widgets_represents _ ∅ [] Hall represents_empty).
Qed.

(** Outside the well-formed playlists the scan may still complete; the map
    then holds the exposed references all the same. *)

Lemma add_refs_no_wid wid mids : forall wm wm',
  int_opt wid = None ->
  add_refs wid mids wm = Ret wm' ->
  wm' = wm.
Proof.
  unfold int_opt. induction mids as [|mid mids IH]; intros wm wm' Hw; simpl.
  - by intros [= <-].
  - destruct (py_int mid) as [k|e]; [|by apply IH].
    by destruct (py_int wid).
Qed.

Lemma scan_widget_returned w wm wm' refs :
  scan_widget w wm = Ret wm' ->
  represents wm refs ->
  represents wm' (refs ++ refs_of_widget w).
Proof.
  destruct w as [| | | | | |d]; try discriminate. simpl.
  destruct (truthy (widget_id d)); simpl.
  - unfold elements_of.
    destruct (py_iter (media_refs d)) as [mids|]; [|discriminate]. simpl.
    intros Hrun Hrep.
    destruct (int_opt (widget_id d)) as [wid|] eqn:Hwid.
    + unfold int_opt in Hwid.
      destruct (py_int (widget_id d)) as [wid'|] eqn:Hint; [|discriminate].
      injection Hwid as ->.
      destruct (add_refs_represents _ wid mids wm refs Hint Hrep)
        as (wm2 & Hrun2 & Hrep2).
      rewrite Hrun in Hrun2. by injection Hrun2 as <-.
    + apply (add_refs_no_wid _ _ _ _ Hwid) in Hrun as ->.
      by rewrite app_nil_r.
  - intros [= <-] Hrep. by rewrite app_nil_r.
Qed.

Lemma scan_widgets_returned ws : forall wm wm' refs,
  scan_widgets ws wm = Ret wm' ->
  represents wm refs ->
  represents wm' (refs ++ flat_map refs_of_widget ws).
Proof.
  induction ws as [|w ws IH]; intros wm wm' refs; simpl.
  - intros [= <-] Hrep. by rewrite app_nil_r.
  - destruct (scan_widget w wm) as [wm1|] eqn:H1; [|discriminate]. simpl.
    intros Hrun Hrep. rewrite app_assoc.
    apply (IH _ _ _ Hrun). by apply (scan_widget_returned _ _ _ _ H1).
Qed.

Lemma build_widget_map_returned p wm :
  build_widget_map p = Ret wm -> represents wm (all_refs p).
Proof.
  unfold build_widget_map, all_refs, widgets_of.
  destruct (widgets_under p "widgets") as [ws1|]; [|discriminate].
  destruct (widgets_under p "newWidgets") as [ws2|]; [|discriminate].
  simpl. intros Hrun.
  apply (scan_widgets_returned _ _ _ [] Hrun represents_empty).
Qed.


Example mixed_playlist_map :
  match build_widget_map mixed_playlist with
  | Ret wm => map_to_list wm = [(5, [10; 11; 11]); (6, [11])]
  | Raise _ => False
  end.
Proof. vm_compute. reflexivity. Qed.

(** ** Properties of the Reconciler *)

Section ReconcilerProperties.

Variable server : list request -> request -> reply.

Lemma attempts_app ts1 : forall lg ts2,
  attempts server lg (ts1 ++ ts2)
  = attempts server lg ts1 ++ attempts server (lg ++ delete_requests ts1) ts2.
Proof.
  induction ts1 as [|[m w] ts1 IH]; intros lg ts2; simpl.
  - by rewrite app_nil_r.
  - f_equal. rewrite IH. by rewrite <- app_assoc.
Qed.

Lemma successes_app a1 a2 : successes (a1 ++ a2) = successes a1 ++ successes a2.
Proof. unfold successes. rewrite List.filter_app. apply fmap_app. Qed.

(** One round of the inner loop records the attempt and nothing else. *)
Lemma record_delete_deleted m w rp st :
  p_deleted (record_delete m w rp st) = p_deleted st ++ successes [(m, w, rp)].
Proof.
  unfold record_delete, successes. destruct rp as [msg|dr]; simpl.
  - by rewrite app_nil_r.
  - by destruct ((status_code dr =? 200) || (status_code dr =? 204)); simpl;
      rewrite ?app_nil_r.
Qed.

Lemma record_delete_notes m w rp st :
  p_notes (record_delete m w rp st) = p_notes st ++ [attempt_note (m, w, rp)].
Proof.
  unfold record_delete, attempt_note. destruct rp as [msg|dr]; simpl; [done|].
  by destruct ((status_code dr =? 200) || (status_code dr =? 204)).
Qed.

(** The inner loop sends one delete request per widget, whatever the
    replies, and never raises. *)
Lemma delete_widgets_run m wids : forall st lg,
  exists st',
    delete_widgets server m wids st lg
    = (Ret st', lg ++ (DeleteWidget <$> wids))
    /\ p_deleted st'
       = p_deleted st
         ++ successes (attempts server lg ((fun w => (m, w)) <$> wids))
    /\ p_notes st'
       = p_notes st
         ++ (attempt_note <$> attempts server lg ((fun w => (m, w)) <$> wids)).
Proof.
  induction wids as [|w wids IH]; intros st lg; simpl.
  - exists st. unfold io_ret. by rewrite !app_nil_r.
  - unfold io_bind, send.
    destruct (IH (record_delete m w (server lg (DeleteWidget w)) st)
                 (lg ++ [DeleteWidget w])) as (st' & Hrun & Hdel & Hnotes).
    exists st'. rewrite Hrun, Hdel, Hnotes.
    rewrite record_delete_deleted, record_delete_notes, <- !app_assoc.
    split; [done|]. split; [|done].
    f_equal. symmetry. apply (successes_app [_]).
Qed.

Lemma delete_requests_pairs m (wids : list Z) :
  delete_requests ((fun w => (m, w)) <$> wids) = DeleteWidget <$> wids.
Proof. unfold delete_requests. rewrite <- list_fmap_compose. done. Qed.

Lemma targets_cons wm mid old :
  targets wm (mid :: old)
  = match int_opt mid with
    | Some m => (fun w => (m, w)) <$> default [] (wm !! m)
    | None => []
    end ++ targets wm old.
Proof. reflexivity. Qed.

(** The whole of step 3. *)
Lemma delete_old_run wm old : forall st lg,
  exists st' extra,
    delete_old server wm old st lg
    = (Ret st', lg ++ delete_requests (targets wm old))
    /\ p_deleted st'
       = p_deleted st ++ successes (attempts server lg (targets wm old))
    /\ p_notes st' = p_notes st ++ extra
    /\ (forall a, a ∈ attempts server lg (targets wm old) ->
                  attempt_note a ∈ extra).
Proof.
  induction old as [|mid old IH]; intros st lg.
  - exists st, []. simpl. unfold io_ret. rewrite !app_nil_r.
    repeat split; try done. intros a Ha. by apply elem_of_nil in Ha.
  - rewrite targets_cons. cbn [delete_old]. unfold int_opt.
    destruct (py_int mid) as [m|e].
    + destruct (default [] (wm !! m)) as [|w wids].
      * destruct (IH (add_note (NoWidgetFound m) st) lg)
          as (st' & extra & Hrun & Hdel & Hnotes & Hall).
        exists st', (NoWidgetFound m :: extra).
        rewrite fmap_nil, app_nil_l, Hrun, Hdel, Hnotes.
        cbn [add_note p_deleted p_notes]. rewrite <- app_assoc.
        repeat split; try done. intros a Ha. right. by apply Hall.
      * destruct (delete_widgets_run m (w :: wids) st lg)
          as (st1 & Hrun1 & Hdel1 & Hnotes1).
        destruct (IH st1 (lg ++ (DeleteWidget <$> w :: wids)))
          as (st' & extra & Hrun & Hdel & Hnotes & Hall).
        set (ts := (fun w0 => (m, w0)) <$> w :: wids) in *.
        exists st', ((attempt_note <$> attempts server lg ts) ++ extra).
        unfold io_bind. rewrite Hrun1, Hrun.
        unfold delete_requests at 2. rewrite fmap_app.
        fold (delete_requests ts) (delete_requests (targets wm old)).
        rewrite attempts_app, successes_app.
        subst ts. rewrite !delete_requests_pairs.
        rewrite Hdel, Hdel1, Hnotes, Hnotes1, <- !app_assoc.
        split; [done|]. split; [done|]. split; [done|].
        intros a Ha. apply elem_of_app in Ha as [Ha|Ha]; apply elem_of_app.
        -- left. by apply list_elem_of_fmap_2.
        -- right. by apply Hall.
    + destruct (IH (add_note (SkippingInvalid mid) st) lg)
        as (st' & extra & Hrun & Hdel & Hnotes & Hall).
      exists st', (SkippingInvalid mid :: extra).
      rewrite app_nil_l, Hrun, Hdel, Hnotes.
      cbn [add_note p_deleted p_notes]. rewrite <- app_assoc.
      repeat split; try done. intros a Ha. right. by apply Hall.
Qed.

(** C5: the deletion loop sends a delete request for every widget found
    for an old media id, in order and whatever the earlier replies were; it
    never raises; [deleted] gains exactly the pairs whose reply had status
    200 or 204; and every attempt leaves its note, which for a request
    failure or another status is a failure note naming the widget. *)
Theorem deletion_loop_tolerates_failures
    (wm : widget_map) (old : list pyval) (st : progress) (lg : list request) :
  exists st',
    delete_old server wm old st lg
    = (Ret st', lg ++ delete_requests (targets wm old))
    /\ p_deleted st'
       = p_deleted st ++ successes (attempts server lg (targets wm old))
    /\ (forall m w rp,
           (m, w, rp) ∈ attempts server lg (targets wm old) ->
           attempt_note (m, w, rp) ∈ p_notes st'
           /\ (succeeded rp = true -> (m, w) ∈ p_deleted st')
           /\ (succeeded rp = false ->
               match rp with
               | Fails msg => RequestErrorDeleting w msg ∈ p_notes st'
               | Responds dr =>
                   FailedToDelete w m (status_code dr) (text dr) ∈ p_notes st'
               end)).
Proof.
  destruct (delete_old_run wm old st lg)
    as (st' & extra & Hrun & Hdel & Hnotes & Hall).
  exists st'. split; [done|]. split; [done|].
  intros m w rp Ha.
  assert (Hnote : attempt_note (m, w, rp) ∈ p_notes st').
  { rewrite Hnotes. apply elem_of_app. right. by apply Hall. }
  split; [done|]. split.
  - intros Hok. rewrite Hdel. apply elem_of_app. right.
    unfold successes.
    apply (list_elem_of_fmap_2' fst _ (m, w, rp)); [|done].
    apply list_elem_of_In, List.filter_In. split; [|done].
    by apply list_elem_of_In.
  - intros Hko. unfold attempt_note in Hnote. rewrite Hko in Hnote.
    by destruct rp.
Qed.

(** *** The run as a whole *)

Lemma raise_for_status_raises r :
  400 <= status_code r < 600 ->
  raise_for_status r = Some (HTTPError (status_code r)).
Proof.
  intros [Hlo Hhi]. unfold raise_for_status.
  apply Z.leb_le in Hlo. apply Z.ltb_lt in Hhi. by rewrite Hlo, Hhi.
Qed.

Lemma raise_for_status_passes r :
  ~ status_is_error r -> raise_for_status r = None.
Proof.
  unfold status_is_error, raise_for_status. intros Hok.
  destruct (400 <=? status_code r) eqn:Hlo; [|done].
  destruct (status_code r <? 600) eqn:Hhi; [|done].
  apply Z.leb_le in Hlo. apply Z.ltb_lt in Hhi. lia.
Qed.

(** The three readings of a reply are what the [try] block makes of it. *)
Lemma decode_value rp v : reply_value rp v -> decode rp = Ret (inr v).
Proof.
  destruct rp as [msg|r]; simpl; [done|]. intros [Hok Hjson].
  by rewrite (raise_for_status_passes r Hok), Hjson.
Qed.

Lemma decode_error rp e : reply_error rp e -> decode rp = Ret (inl e).
Proof.
  destruct rp as [msg|r]; simpl; [by intros ->|].
  intros [[Herr ->]|(Hok & Hjson & ->)].
  - by rewrite (raise_for_status_raises r Herr).
  - by rewrite (raise_for_status_passes r Hok), Hjson.
Qed.

Lemma decode_breaks rp e : reply_breaks rp e -> decode rp = Raise e.
Proof.
  destruct rp as [msg|r]; simpl; [done|]. intros [Hok Hjson].
  by rewrite (raise_for_status_passes r Hok), Hjson.
Qed.

Lemma call_json_run rq lg :
  call_json server rq lg = (decode (server lg rq), lg ++ [rq]).
Proof. reflexivity. Qed.

Lemma fetched_run pid new old lg p rest :
  decode (server lg (GetPlaylist pid)) = Ret (inr (PList (p :: rest))) ->
  assign_media_to_playlist server pid new old lg
  = reconcile_playlist server pid new old p (lg ++ [GetPlaylist pid]).
Proof.
  intros H. unfold assign_media_to_playlist, io_bind.
  by rewrite call_json_run, H.
Qed.

(** C4 (amended): when the reply to the playlist fetch is terminal, the
    call returns with no deletion, no assignment and exactly one note, and
    the fetch is the only request sent. *)
Theorem terminal_fetch_returns_one_note
    (pid : Z) (new : list Z) (old : list pyval) (lg : list request) :
  terminal_reply (server lg (GetPlaylist pid)) ->
  exists n,
    assign_media_to_playlist server pid new old lg
    = (Ret {| deleted := []; assigned := PNone; notes := [n] |},
       lg ++ [GetPlaylist pid])
    /\ ((exists e, n = FailedToFetch e)
        \/ (exists plist, n = NotFoundOrEmpty pid plist)).
Proof.
  unfold assign_media_to_playlist, io_bind. rewrite call_json_run.
  unfold io_ret, decode.
  destruct (server lg (GetPlaylist pid)) as [msg|r]; simpl.
  - intros _. eexists. split; [done|]. left. by eexists.
  - intros [Hst|Hbody].
    + rewrite (raise_for_status_raises r Hst).
      eexists. split; [done|]. left. by eexists.
    + destruct (raise_for_status r) as [e|].
      * eexists. split; [done|]. left. by eexists.
      * destruct (json r) as [v| |e]; [| |done].
        -- destruct v as [| | | | |[|p rest]|]; try discriminate;
             (eexists; split; [done|]; right; by eexists).
        -- eexists. split; [done|]. left. by eexists.
Qed.

Lemma nonempty_map_run pid new old p wm lg :
  build_widget_map p = Ret wm ->
  wm <> ∅ ->
  reconcile_playlist server pid new old p lg
  = (let* st' := delete_old server wm old
                   {| p_deleted := []; p_notes := [Discovered pid wm] |} in
     assign_after_delete server pid new st') lg.
Proof.
  intros Hb Hne. unfold reconcile_playlist, io_bind at 1, io_lift.
  rewrite Hb. by destruct (decide (wm = ∅)).
Qed.

Lemma empty_map_run pid new old p lg :
  build_widget_map p = Ret ∅ ->
  reconcile_playlist server pid new old p lg
  = assign_directly server pid new {| p_deleted := []; p_notes := [] |} lg.
Proof.
  intros Hb. unfold reconcile_playlist, io_bind at 1, io_lift.
  rewrite Hb. by destruct (decide (∅ = ∅)).
Qed.

(** Step 4 on a non-empty [new], by what the [try] block makes of the
    reply. *)
Lemma assign_after_delete_run pid x new st lg :
  assign_after_delete server pid (x :: new) st lg
  = (match decode (server lg (AssignMedia pid (x :: new))) with
     | Ret (inr payload) =>
         Ret {| deleted := p_deleted st; assigned := payload;
                notes := p_notes st ++ [AssignedNew pid] |}
     | Ret (inl e) =>
         Ret {| deleted := p_deleted st; assigned := PNone;
                notes := p_notes st ++ [FailedToAssign e] |}
     | Raise e => Raise e
     end,
     lg ++ [AssignMedia pid (x :: new)]).
Proof.
  unfold assign_after_delete, io_bind. rewrite call_json_run.
  by destruct (decode (server lg (AssignMedia pid (x :: new)))) as [[e|v]|e].
Qed.

(** Step 5 on a non-empty [new], likewise. *)
Lemma assign_directly_run pid x new st lg :
  assign_directly server pid (x :: new) st lg
  = (match decode (server lg (AssignMedia pid (x :: new))) with
     | Ret (inr payload) =>
         Ret {| deleted := p_deleted st; assigned := payload;
                notes := (p_notes st ++ [NoWidgetsDiscovered pid])
                         ++ [AssignedCreated pid] |}
     | Ret (inl e) =>
         Ret {| deleted := p_deleted st; assigned := PNone;
                notes := (p_notes st ++ [NoWidgetsDiscovered pid])
                         ++ [FailedToAssign e] |}
     | Raise e => Raise e
     end,
     lg ++ [AssignMedia pid (x :: new)]).
Proof.
  unfold assign_directly, io_bind. rewrite call_json_run.
  by destruct (decode (server lg (AssignMedia pid (x :: new)))) as [[e|v]|e].
Qed.

(** The deletion branch as a whole, on a non-empty [new]. *)
Lemma deletion_branch_run pid x new old lg p rest wm :
  decode (server lg (GetPlaylist pid)) = Ret (inr (PList (p :: rest))) ->
  build_widget_map p = Ret wm ->
  wm <> ∅ ->
  exists noted,
    (forall a,
        a ∈ attempts server (lg ++ [GetPlaylist pid]) (targets wm old) ->
        attempt_note a ∈ noted)
    /\ assign_media_to_playlist server pid (x :: new) old lg
       = (match decode
                  (server (lg ++ [GetPlaylist pid]
                              ++ delete_requests (targets wm old))
                          (AssignMedia pid (x :: new))) with
          | Ret (inr payload) =>
              Ret {| deleted :=
                       successes (attempts server (lg ++ [GetPlaylist pid])
                                           (targets wm old));
                     assigned := payload;
                     notes := Discovered pid wm :: noted ++ [AssignedNew pid] |}
          | Ret (inl e) =>
              Ret {| deleted :=
                       successes (attempts server (lg ++ [GetPlaylist pid])
                                           (targets wm old));
                     assigned := PNone;
                     notes := Discovered pid wm :: noted ++ [FailedToAssign e] |}
          | Raise e => Raise e
          end,
          lg ++ [GetPlaylist pid] ++ delete_requests (targets wm old)
             ++ [AssignMedia pid (x :: new)]).
Proof.
  intros Hfetch Hbuild Hne.
  rewrite (fetched_run _ _ _ _ _ _ Hfetch), (nonempty_map_run _ _ _ _ _ _ Hbuild Hne).
  destruct (delete_old_run wm old
              {| p_deleted := []; p_notes := [Discovered pid wm] |}
              (lg ++ [GetPlaylist pid]))
    as (st' & extra & Hrun & Hdel & Hnotes & Hall).
  simpl in Hdel, Hnotes.
  exists extra. split; [done|].
  unfold io_bind at 1. rewrite Hrun, assign_after_delete_run, Hdel, Hnotes.
  by rewrite <- !app_assoc.
Qed.

(** C6 (amended): with a non-empty map and non-empty [new], the requests
    sent are the fetch, the deletions, then one assign call.  When the
    assign call fails with a request exception (the request raises, the
    status is 4xx or 5xx, or the body is not JSON) the call returns every
    successful deletion, [None] and the notes gathered so far followed by
    a failure note; when it yields a value the result carries that value;
    when decoding its body raises another exception, that exception leaves
    the call. *)
Theorem assign_follows_deletions
    (pid : Z) (new : list Z) (old : list pyval) (lg : list request)
    (p : pyval) (rest : list pyval) (wm : widget_map) :
  reply_value (server lg (GetPlaylist pid)) (PList (p :: rest)) ->
  build_widget_map p = Ret wm ->
  wm <> ∅ ->
  new <> [] ->
  exists noted,
    snd (assign_media_to_playlist server pid new old lg)
    = lg ++ [GetPlaylist pid] ++ delete_requests (targets wm old)
         ++ [AssignMedia pid new]
    /\ (forall a,
           a ∈ attempts server (lg ++ [GetPlaylist pid]) (targets wm old) ->
           attempt_note a ∈ noted)
    /\ (forall e,
           reply_error
             (server (lg ++ [GetPlaylist pid] ++ delete_requests (targets wm old))
                     (AssignMedia pid new)) e ->
           fst (assign_media_to_playlist server pid new old lg)
           = Ret {| deleted :=
                      successes (attempts server (lg ++ [GetPlaylist pid])
                                          (targets wm old));
                    assigned := PNone;
                    notes := Discovered pid wm :: noted ++ [FailedToAssign e] |})
    /\ (forall payload,
           reply_value
             (server (lg ++ [GetPlaylist pid] ++ delete_requests (targets wm old))
                     (AssignMedia pid new)) payload ->
           fst (assign_media_to_playlist server pid new old lg)
           = Ret {| deleted :=
                      successes (attempts server (lg ++ [GetPlaylist pid])
                                          (targets wm old));
                    assigned := payload;
                    notes := Discovered pid wm :: noted ++ [AssignedNew pid] |})
    /\ (forall e,
           reply_breaks
             (server (lg ++ [GetPlaylist pid] ++ delete_requests (targets wm old))
                     (AssignMedia pid new)) e ->
           fst (assign_media_to_playlist server pid new old lg) = Raise e).
Proof.
  intros Hfetch Hbuild Hne Hnew. apply decode_value in Hfetch.
  destruct new as [|x new]; [done|].
  destruct (deletion_branch_run pid x new old lg p rest wm Hfetch Hbuild Hne)
    as (noted & Hall & ->).
  exists noted. split; [done|]. split; [done|]. simpl. split; [|split].
  - intros e He. by rewrite (decode_error _ _ He).
  - intros payload Hv. by rewrite (decode_value _ _ Hv).
  - intros e He. by rewrite (decode_breaks _ _ He).
Qed.

(** C7 (amended): with an empty map no delete request is sent, whatever
    [old] is.  With an empty [new] nothing is assigned; with a non-empty
    [new] exactly one assign call with body [new] follows the fetch, and the
    result carries its value, or [None] and a failure note when the call
    fails with a request exception; when decoding its body raises another
    exception, that exception leaves the call. *)
Theorem empty_map_skips_deletion
    (pid : Z) (new : list Z) (old : list pyval) (lg : list request)
    (p : pyval) (rest : list pyval) :
  reply_value (server lg (GetPlaylist pid)) (PList (p :: rest)) ->
  build_widget_map p = Ret ∅ ->
  (new = [] ->
   assign_media_to_playlist server pid new old lg
   = (Ret {| deleted := []; assigned := PNone;
             notes := [NoWidgetsDiscovered pid; NothingToAssign] |},
      lg ++ [GetPlaylist pid]))
  /\ (new <> [] ->
      snd (assign_media_to_playlist server pid new old lg)
      = lg ++ [GetPlaylist pid; AssignMedia pid new]
      /\ (forall e,
             reply_error (server (lg ++ [GetPlaylist pid]) (AssignMedia pid new)) e ->
             fst (assign_media_to_playlist server pid new old lg)
             = Ret {| deleted := []; assigned := PNone;
                      notes := [NoWidgetsDiscovered pid; FailedToAssign e] |})
      /\ (forall payload,
             reply_value (server (lg ++ [GetPlaylist pid]) (AssignMedia pid new))
                         payload ->
             fst (assign_media_to_playlist server pid new old lg)
             = Ret {| deleted := []; assigned := payload;
                      notes := [NoWidgetsDiscovered pid; AssignedCreated pid] |})
      /\ (forall e,
             reply_breaks (server (lg ++ [GetPlaylist pid]) (AssignMedia pid new)) e ->
             fst (assign_media_to_playlist server pid new old lg) = Raise e)).
Proof.
  intros Hfetch Hbuild. apply decode_value in Hfetch.
  rewrite (fetched_run _ _ _ _ _ _ Hfetch), (empty_map_run _ _ _ _ _ Hbuild).
  split.
  - by intros ->.
  - intros Hnew. destruct new as [|x new]; [done|].
    rewrite assign_directly_run. simpl.
    split; [by rewrite <- app_assoc|]. split; [|split].
    + intros e He. by rewrite (decode_error _ _ He).
    + intros payload Hv. by rewrite (decode_value _ _ Hv).
    + intros e He. by rewrite (decode_breaks _ _ He).
Qed.

(** *** Where deleted pairs come from *)

Lemma attempts_targets ts : forall lg m w rp,
  (m, w, rp) ∈ attempts server lg ts -> (m, w) ∈ ts.
Proof.
  induction ts as [|[m0 w0] ts IH]; intros lg m w rp Ha; simpl in Ha.
  - by apply elem_of_nil in Ha.
  - apply elem_of_cons in Ha as [Heq|Ha].
    + injection Heq as -> -> _. left.
    + right. by eapply IH.
Qed.

Lemma successes_targets lg ts m w :
  (m, w) ∈ successes (attempts server lg ts) -> (m, w) ∈ ts.
Proof.
  unfold successes. intros Hin.
  apply list_elem_of_fmap in Hin as ([[m' w'] rp] & Heq & Hin).
  simpl in Heq. injection Heq as <- <-.
  apply list_elem_of_In, List.filter_In in Hin as [Hin _].
  apply list_elem_of_In in Hin. by eapply attempts_targets.
Qed.

Lemma targets_origin wm old m w :
  (m, w) ∈ targets wm old ->
  exists mid wids,
    mid ∈ old /\ py_int mid = Ret m /\ wm !! m = Some wids /\ w ∈ wids.
Proof.
  unfold targets. intros Hin.
  apply list_elem_of_In, in_flat_map in Hin as (mid & Hmid & Hin).
  apply list_elem_of_In in Hmid. apply list_elem_of_In in Hin.
  unfold int_opt in Hin. destruct (py_int mid) as [m'|e] eqn:Hint.
  - apply list_elem_of_fmap in Hin as (w' & Heq & Hw).
    injection Heq as <- <-.
    destruct (wm !! m) as [wids|] eqn:Hlook.
    + exists mid, wids. by rewrite Hint.
    + by apply elem_of_nil in Hw.
  - by apply elem_of_nil in Hin.
Qed.

(** What [deleted] can be when the call returns. *)
Lemma returned_deleted pid new old lg res lg' :
  assign_media_to_playlist server pid new old lg = (Ret res, lg') ->
  deleted res = []
  \/ exists p rest wm,
       decode (server lg (GetPlaylist pid)) = Ret (inr (PList (p :: rest)))
       /\ build_widget_map p = Ret wm
       /\ wm <> ∅
       /\ deleted res
          = successes (attempts server (lg ++ [GetPlaylist pid]) (targets wm old)).
Proof.
  destruct (decode (server lg (GetPlaylist pid))) as [[e|v]|e] eqn:Hfetch.
  - unfold assign_media_to_playlist, io_bind. rewrite call_json_run, Hfetch.
    intros [= <- _]. by left.
  - destruct (is_nonempty_list v) eqn:Hv.
    + destruct v as [| | | | |[|p rest]|]; try discriminate.
      destruct (build_widget_map p) as [wm|e] eqn:Hbuild.
      * destruct (decide (wm = ∅)) as [->|Hne].
        -- rewrite (fetched_run _ _ _ _ _ _ Hfetch), (empty_map_run _ _ _ _ _ Hbuild).
           destruct new as [|x new].
           ++ intros [= <- _]. by left.
           ++ rewrite assign_directly_run.
              destruct (decode (server _ (AssignMedia _ _))) as [[e|payload]|e];
                intros [= <- _]; by left.
        -- intros Hres. right. exists p, rest, wm. split; [done|].
           split; [done|]. split; [done|]. revert Hres.
           destruct new as [|x new].
           ++ rewrite (fetched_run _ _ _ _ _ _ Hfetch),
                (nonempty_map_run _ _ _ _ _ _ Hbuild Hne).
              destruct (delete_old_run wm old
                          {| p_deleted := []; p_notes := [Discovered pid wm] |}
                          (lg ++ [GetPlaylist pid]))
                as (st' & extra & Hrun & Hdel & _).
              simpl in Hdel. unfold io_bind. rewrite Hrun. simpl.
              unfold io_ret. intros [= <- _]. done.
           ++ destruct (deletion_branch_run pid x new old lg p rest wm
                          Hfetch Hbuild Hne) as (noted & _ & ->).
              destruct (decode (server _ (AssignMedia _ _))) as [[e|payload]|e];
                intros [= <- _]; done.
      * rewrite (fetched_run _ _ _ _ _ _ Hfetch).
        unfold reconcile_playlist, io_bind, io_lift. rewrite Hbuild. discriminate.
    + unfold assign_media_to_playlist, io_bind. rewrite call_json_run, Hfetch.
      destruct v as [| | | | |[|p rest]|]; try discriminate;
        intros [= <- _]; by left.
  - unfold assign_media_to_playlist, io_bind. rewrite call_json_run, Hfetch.
    discriminate.
Qed.

(** C10: every pair [(m, w)] of the returned [deleted] has [m] the integer
    coercion of an element of [old] and [w] among the widgets the map built
    from the fetched playlist lists for [m]; so [deleted] is empty when
    [old] is empty or the map is empty. *)
Theorem deleted_pairs_come_from_the_map
    (pid : Z) (new : list Z) (old : list pyval) (lg : list request)
    (res : result) (lg' : list request) :
  assign_media_to_playlist server pid new old lg = (Ret res, lg') ->
  (forall m w,
      (m, w) ∈ deleted res ->
      exists p rest wm mid wids,
        decode (server lg (GetPlaylist pid))
          = Ret (inr (PList (p :: rest)))
        /\ build_widget_map p = Ret wm
        /\ mid ∈ old /\ py_int mid = Ret m
        /\ wm !! m = Some wids /\ w ∈ wids)
  /\ (old = [] -> deleted res = [])
  /\ (forall p rest,
         decode (server lg (GetPlaylist pid))
           = Ret (inr (PList (p :: rest))) ->
         build_widget_map p = Ret ∅ ->
         deleted res = []).
Proof.
  intros Hrun.
  destruct (returned_deleted _ _ _ _ _ _ Hrun)
    as [Hnil|(p & rest & wm & Hfetch & Hbuild & Hne & Hdel)].
  - rewrite Hnil. split; [|done].
    intros m w Hin. by apply elem_of_nil in Hin.
  - split; [|split].
    + intros m w Hin. rewrite Hdel in Hin.
      apply successes_targets, targets_origin in Hin
        as (mid & wids & Hmid & Hint & Hlook & Hw).
      by exists p, rest, wm, mid, wids.
    + intros ->. by rewrite Hdel.
    + intros p' rest' Hfetch' Hbuild'.
      rewrite Hfetch in Hfetch'. injection Hfetch' as <- _.
      rewrite Hbuild in Hbuild'. injection Hbuild' as ->. done.
Qed.

End ReconcilerProperties.

(** ** Properties of the Locator *)

Section LocatorProperties.

Variable server : list request -> request -> reply.

Lemma scan_item_grows name item found l :
  scan_item name item found = Ret l ->
  exists extra,
    l = found ++ extra
    /\ (extra = [] <-> is_hit name item = false).
Proof.
  destruct item as [| | | | | |d]; try discriminate. simpl.
  destruct (truthy (media_id_of d)); simpl.
  - destruct (matches d name) as [[|]|e]; simpl; try discriminate.
    + destruct (py_int (media_id_of d)) as [i|e]; simpl; try discriminate.
      intros [= <-]. exists [i]. split; [done|]. split; discriminate.
    + intros [= <-]. exists []. by rewrite app_nil_r.
  - intros [= <-]. exists []. by rewrite app_nil_r.
Qed.

Lemma scan_items_grows name items : forall found l,
  scan_items name items found = Ret l ->
  exists extra,
    l = found ++ extra
    /\ (extra = [] <-> existsb (is_hit name) items = false).
Proof.
  induction items as [|item items IH]; intros found l; simpl.
  - intros [= <-]. exists []. by rewrite app_nil_r.
  - destruct (scan_item name item found) as [found1|e] eqn:H1; simpl;
      [|discriminate].
    intros H2.
    apply scan_item_grows in H1 as (e1 & -> & Hhit1).
    apply IH in H2 as (e2 & -> & Hhit2).
    exists (e1 ++ e2). rewrite app_assoc. split; [done|].
    rewrite orb_false_iff, <- Hhit1, <- Hhit2. split.
    + intros H. by apply app_eq_nil in H.
    + by intros [-> ->].
Qed.

Lemma scan_items_hit name items l :
  scan_items name items [] = Ret l ->
  (l = [] <-> existsb (is_hit name) items = false).
Proof.
  intros H. by apply scan_items_grows in H as (extra & -> & Hhit).
Qed.

(** One round of [for params in tried]. *)
Lemma lookup_step name b rest lg items l :
  records_of (server lg (GetLibrary b name)) = Ret items ->
  scan_items name items [] = Ret l ->
  lookup server name (b :: rest) [] lg
  = match l with
    | [] => lookup server name rest [] (lg ++ [GetLibrary b name])
    | _ :: _ => (Ret l, lg ++ [GetLibrary b name])
    end.
Proof.
  unfold records_of. cbn [lookup]. unfold io_bind, send, io_lift, io_ret.
  destruct (library_data (server lg (GetLibrary b name))) as [data|].
  - intros -> ->. by destruct l.
  - intros [= <-]. simpl. by intros [= <-].
Qed.

Lemma lookup_skips name before : forall lg rest,
  (forall b1 b b2,
      before = b1 ++ b :: b2 ->
      no_match name (server (lg ++ library_requests name b1) (GetLibrary b name))) ->
  lookup server name (before ++ rest) [] lg
  = lookup server name rest [] (lg ++ library_requests name before).
Proof.
  induction before as [|b before IH]; intros lg rest Hearlier.
  - simpl. by rewrite app_nil_r.
  - destruct (Hearlier [] b before eq_refl) as (items & Hrec & Hnohit & Hret).
    simpl in Hrec. rewrite app_nil_r in Hrec.
    destruct (scan_items name items []) as [l|e] eqn:Hscan; [|discriminate].
    apply (scan_items_hit _ _ _ Hscan) in Hnohit as ->.
    rewrite <- app_comm_cons, (lookup_step _ _ _ _ _ _ Hrec Hscan).
    rewrite IH.
    + unfold library_requests. by rewrite fmap_cons, <- app_assoc.
    + intros b1 b' b2 ->.
      specialize (Hearlier (b :: b1) b' b2 eq_refl).
      unfold library_requests in *. rewrite fmap_cons in Hearlier.
      by rewrite <- app_assoc.
Qed.


End LocatorProperties.

(** ** Identifiers that read as missing *)

Lemma scan_widgets_app ws1 ws2 wm :
  scan_widgets (ws1 ++ ws2) wm
  = (let? wm' := scan_widgets ws1 wm in scan_widgets ws2 wm').
Proof.
  revert wm. induction ws1 as [|w ws1 IH]; intros wm; simpl; [done|].
  destruct (scan_widget w wm) as [wm1|e]; simpl; [apply IH|done].
Qed.

Lemma zero_or_absent_falsy d k :
  zero_or_absent (dict_get k d) -> truthy (get d k) = false.
Proof. unfold get. by intros [-> | ->]. Qed.

Lemma zero_widget_skipped d wm :
  zero_widget_id d -> scan_widget (PDict d) wm = Ret wm.
Proof.
  intros [Hwid Hid]. unfold scan_widget, widget_id, py_or.
  rewrite (zero_or_absent_falsy d "widgetId") by (by right).
  by rewrite (zero_or_absent_falsy d "id").
Qed.

(** C9: the integer 0 reads as a missing identifier.  A widget whose
    [widgetId] is 0 (and [id] absent or 0) leaves the map as it was, and the
    map is the same as if the widget were not in the collection, so no
    deletion can come from it; a widget whose singular [mediaId] is 0 (and
    without a plural field) leaves the map as it was; a library record whose
    [mediaId] is 0 is identified by [media_id], then [id], and is skipped
    when all three are 0 or absent. *)
Theorem zero_reads_as_missing :
  (forall d wm,
      zero_widget_id d ->
      scan_widget (PDict d) wm = Ret wm /\ refs_of_widget (PDict d) = [])
  /\ (forall d ws1 ws2 wm,
         zero_widget_id d ->
         scan_widgets (ws1 ++ PDict d :: ws2) wm = scan_widgets (ws1 ++ ws2) wm)
  /\ (forall d wm,
         truthy (get d "mediaIds") = false ->
         dict_get "mediaId" d = Some (PInt 0) ->
         scan_widget (PDict d) wm = Ret wm)
  /\ (forall d,
         dict_get "mediaId" d = Some (PInt 0) ->
         media_id_of d = py_or (get d "media_id") (get d "id"))
  /\ (forall d name found,
         zero_or_absent (dict_get "mediaId" d) ->
         zero_or_absent (dict_get "media_id" d) ->
         zero_or_absent (dict_get "id" d) ->
         scan_item name (PDict d) found = Ret found).
Proof.
  split; [|split; [|split; [|split]]].
  - intros d wm Hz. split; [by apply zero_widget_skipped|].
    destruct Hz as [Hwid Hid]. unfold refs_of_widget, widget_id, py_or.
    rewrite (zero_or_absent_falsy d "widgetId") by (by right).
    by rewrite (zero_or_absent_falsy d "id").
  - intros d ws1 ws2 wm Hz. rewrite !scan_widgets_app.
    destruct (scan_widgets ws1 wm) as [wm1|e]; cbn [bind_outcome scan_widgets];
      [|done].
    by rewrite zero_widget_skipped.
  - intros d wm Hplural Hsingular. unfold scan_widget, media_refs.
    rewrite Hplural, andb_false_r.
    unfold get. rewrite Hsingular. simpl.
    by destruct (truthy (widget_id d)).
  - intros d Hz. unfold media_id_of.
    replace (get d "mediaId") with (PInt 0) by (unfold get; by rewrite Hz).
    reflexivity.
  - intros d name found H1 H2 H3. unfold scan_item, media_id_of, py_or.
    rewrite (zero_or_absent_falsy _ _ H1), (zero_or_absent_falsy _ _ H2).
    by rewrite (zero_or_absent_falsy _ _ H3).
Qed.

(** ** The routines on the scenarios *)

(** C3: a widget whose identifier is the text "abc" and that references
    media 5 makes the Reconciler raise [ValueError] right after the fetch:
    the identifier is truthy, the reference is an integer, and the coercion
    of the identifier is not guarded. *)
Theorem non_integer_widget_id_raises :
  assign_media_to_playlist (playlist_cms 200 bad_widget_playlist) 1 [] [] []
  = (Raise ValueError, [GetPlaylist 1]).
Proof. vm_compute. reflexivity. Qed.

(** C2: a library record that matches the name and whose identifier is the
    text "abc" makes the Locator raise [ValueError]: the coercion of the
    identifier is outside the guarded block. *)
Theorem non_integer_media_id_raises :
  find_media_ids_for_names (library_cms library_bad_id) ["a.mp4"] []
  = (Raise ValueError, [GetLibrary ByFileName "a.mp4"]).
Proof. vm_compute. reflexivity. Qed.

(** C4, as stated, fails on two counts.  A fetch answered with status 300
    (not 2xx) and a playlist in the body is not terminal: deletions and the
    assignment follow.  And a fetch whose body fails to deserialize because
    it holds an overlong integer literal does not make the call return: the
    [ValueError] of [r.json()] is no request exception and leaves the
    call. *)
Lemma fetch_with_status_300_goes_on :
  ((exists r,
       playlist_cms 300 two_widget_playlist [] (GetPlaylist 1) = Responds r
       /\ status_code r = 300)
   /\ exists res,
        assign_media_to_playlist (playlist_cms 300 two_widget_playlist)
          1 [9] [PInt 5] []
        = (Ret res,
           [GetPlaylist 1; DeleteWidget 10; DeleteWidget 11; AssignMedia 1 [9]])
        /\ deleted res = [(5, 11)]
        /\ assigned res = PDict []
        /\ length (notes res) = 4%nat)
  /\ (overlong_fetch_cms [] (GetPlaylist 1) = Responds overlong_number
      /\ assign_media_to_playlist overlong_fetch_cms 1 [9] [PInt 5] []
         = (Raise ValueError, [GetPlaylist 1])).
Proof.
  split; [split|split].
  - eexists. split; reflexivity.
  - eexists. split; [vm_compute; reflexivity|]. repeat split.
  - reflexivity.
  - vm_compute. reflexivity.
Qed.

(** C6, as stated, fails: the assign call is answered with a body that
    fails to deserialize because of an overlong integer literal; the call
    neither returns with [None] nor with a payload, the [ValueError] leaves
    it after the deletions were made. *)
Lemma assign_reply_that_breaks_decoding_escapes :
  assign_media_to_playlist
    (assigning_cms two_widget_playlist (Responds overlong_number))
    1 [9] [PInt 5] []
  = (Raise ValueError,
     [GetPlaylist 1; DeleteWidget 10; DeleteWidget 11; AssignMedia 1 [9]]).
Proof. vm_compute. reflexivity. Qed.

(** C7, as stated, fails: on a playlist without widgets the assign call is
    answered with a body that fails to deserialize because of an overlong
    integer literal; the result carries neither the response nor a failure
    note, the [ValueError] leaves the call. *)
Lemma direct_assign_reply_that_breaks_decoding_escapes :
  build_widget_map fresh_playlist = Ret ∅
  /\ assign_media_to_playlist
       (assigning_cms fresh_playlist (Responds overlong_number))
       1 [5; 6] [PInt 1] []
     = (Raise ValueError, [GetPlaylist 1; AssignMedia 1 [5; 6]]).
Proof. split; vm_compute; reflexivity. Qed.



Lemma terminal_fetch_returns_one_note_witness :
  terminal_reply (refusing_cms [] (GetPlaylist 1))
  /\ exists n,
       assign_media_to_playlist refusing_cms 1 [9] [PInt 5] []
       = (Ret {| deleted := []; assigned := PNone; notes := [n] |},
          [GetPlaylist 1])
       /\ ((exists e, n = FailedToFetch e)
           \/ (exists plist, n = NotFoundOrEmpty 1 plist)).
Proof.
  assert (H : terminal_reply (refusing_cms [] (GetPlaylist 1))).
  { left. simpl. lia. }
  split; [exact H|].
  exact (terminal_fetch_returns_one_note refusing_cms 1 [9] [PInt 5] [] H).
Defined.

Lemma deletion_loop_tolerates_failures_witness :
  exists st',
    delete_old (playlist_cms 200 two_widget_playlist)
      (<[5 := [10; 11]]> ∅) [PInt 5] {| p_deleted := []; p_notes := [] |} []
    = (Ret st', [DeleteWidget 10; DeleteWidget 11])
    /\ p_deleted st' = [(5, 11)]
    /\ RequestErrorDeleting 10 "timeout" ∈ p_notes st'.
Proof.
  destruct (deletion_loop_tolerates_failures
              (playlist_cms 200 two_widget_playlist)
              (<[5 := [10; 11]]> ∅) [PInt 5]
              {| p_deleted := []; p_notes := [] |} [])
    as (st' & Hrun & Hdel & Hall).
  exists st'. split; [exact Hrun|]. split; [exact Hdel|].
  destruct (Hall 5 10 (Fails "timeout")) as (_ & _ & Hfail).
  - vm_compute. left.
  - apply Hfail. reflexivity.
Defined.

Lemma assign_follows_deletions_witness :
  exists noted,
    snd (assign_media_to_playlist
           (assigning_cms two_widget_playlist (Fails "timeout"))
           1 [9] [PInt 5] [])
    = [GetPlaylist 1; DeleteWidget 10; DeleteWidget 11; AssignMedia 1 [9]]
    /\ fst (assign_media_to_playlist
              (assigning_cms two_widget_playlist (Fails "timeout"))
              1 [9] [PInt 5] [])
       = Ret {| deleted := [(5, 11)];
                assigned := PNone;
                notes := Discovered 1 (<[5 := [10; 11]]> ∅)
                         :: noted ++ [FailedToAssign (Transport "timeout")] |}.
Proof.
  destruct (assign_follows_deletions
              (assigning_cms two_widget_playlist (Fails "timeout"))
              1 [9] [PInt 5] [] two_widget_playlist [] (<[5 := [10; 11]]> ∅))
    as (noted & Hlog & _ & Herror & _).
  - split; [|reflexivity]. unfold status_is_error. simpl. lia.
  - vm_compute. reflexivity.
  - intros H. apply (f_equal (fun m : widget_map => m !! 5)) in H.
    vm_compute in H. discriminate H.
  - discriminate.
  - exists noted. split; [exact Hlog|].
    exact (Herror (Transport "timeout") eq_refl).
Defined.

Lemma empty_map_skips_deletion_witness :
  snd (assign_media_to_playlist
         (assigning_cms fresh_playlist (Fails "timeout"))
         1 [5; 6] [PInt 1; PInt 2] [])
  = [GetPlaylist 1; AssignMedia 1 [5; 6]]
  /\ fst (assign_media_to_playlist
            (assigning_cms fresh_playlist (Fails "timeout"))
            1 [5; 6] [PInt 1; PInt 2] [])
     = Ret {| deleted := []; assigned := PNone;
              notes := [NoWidgetsDiscovered 1;
                        FailedToAssign (Transport "timeout")] |}.
Proof.
  destruct (empty_map_skips_deletion
              (assigning_cms fresh_playlist (Fails "timeout"))
              1 [5; 6] [PInt 1; PInt 2] [] fresh_playlist [])
    as (_ & Hassign).
  - split; [|reflexivity]. unfold status_is_error. simpl. lia.
  - reflexivity.
  - destruct Hassign as (Hlog & Herror & _); [discriminate|].
    split; [exact Hlog|].
    exact (Herror (Transport "timeout") eq_refl).
Defined.


Lemma zero_reads_as_missing_witness :
  scan_widget (PDict [("widgetId", PInt 0); ("mediaId", PInt 5)]) ∅ = Ret ∅
  /\ scan_widget (PDict [("widgetId", PInt 3); ("mediaId", PInt 0)]) ∅ = Ret ∅
  /\ media_id_of [("mediaId", PInt 0); ("id", PInt 8)] = PInt 8
  /\ scan_item "a.mp4"
       (PDict [("mediaId", PInt 0); ("fileName", PStr "a.mp4")]) []
     = Ret [].
Proof.
  destruct zero_reads_as_missing as (Hwid & _ & Hmid & Hrec & Hskip).
  split; [|split; [|split]].
  - apply Hwid. split; [reflexivity|left; reflexivity].
  - apply Hmid; reflexivity.
  - apply (Hrec [("mediaId", PInt 0); ("id", PInt 8)]). reflexivity.
  - apply Hskip; [right|left|left]; reflexivity.
Defined.

Lemma deleted_pairs_come_from_the_map_witness :
  exists p rest wm mid wids,
    decode (playlist_cms 200 two_widget_playlist [] (GetPlaylist 1))
    = Ret (inr (PList (p :: rest)))
    /\ build_widget_map p = Ret wm
    /\ mid ∈ [PInt 5] /\ py_int mid = Ret 5
    /\ wm !! 5 = Some wids /\ 11 ∈ wids.
Proof.
  eassert (Hrun : assign_media_to_playlist (playlist_cms 200 two_widget_playlist)
                    1 [9] [PInt 5] [] = _).
  { vm_compute. reflexivity. }
  destruct (deleted_pairs_come_from_the_map _ _ _ _ _ _ _ Hrun) as (Hpairs & _).
  apply (Hpairs 5 11). left.
Defined.


(** * Further properties *)

(** ** The Locator as a whole *)

Section LocatorRuns.

Variable server : list request -> request -> reply.

(** The item loop appends the identifier of every record that counts, in
    order. *)
Lemma scan_item_selects name item found l :
  scan_item name item found = Ret l ->
  l = found ++ option_list (hit_id name item).
Proof.
  destruct item as [| | | | | |d]; try discriminate. simpl.
  destruct (truthy (media_id_of d)); simpl.
  - destruct (matches d name) as [[|]|e]; simpl; try discriminate.
    + unfold int_opt. destruct (py_int (media_id_of d)) as [i|e]; simpl;
        [|discriminate].
      by intros [= <-].
    + intros [= <-]. by rewrite app_nil_r.
  - intros [= <-]. by rewrite app_nil_r.
Qed.

(** X1: when the item loop completes, the identifiers it has appended are
    those of the records that carry an identifier and match the name, one
    per record and in the order of the reply. *)
Theorem scan_items_selects_hits
    (name : string) (items : list pyval) (found l : list Z) :
  scan_items name items found = Ret l ->
  l = found ++ omap (hit_id name) items.
Proof.
  revert found. induction items as [|item items IH]; intros found; simpl.
  - intros [= <-]. by rewrite app_nil_r.
  - destruct (scan_item name item found) as [found1|e] eqn:H1; simpl;
      [|discriminate].
    intros H2. apply scan_item_selects in H1 as ->. apply IH in H2 as ->.
    rewrite <- app_assoc. f_equal.
    change (omap (hit_id name) (item :: items))
      with (match hit_id name item with
            | Some y => y :: omap (hit_id name) items
            | None => omap (hit_id name) items
            end).
    by destruct (hit_id name item).
Qed.

Lemma library_requests_cons name b bys (lg : list request) :
  (lg ++ [GetLibrary b name]) ++ library_requests name bys
  = lg ++ library_requests name (b :: bys).
Proof. unfold library_requests. by rewrite fmap_cons, <- app_assoc. Qed.

(** X2: the identifiers returned for a name all come from one attempt, the
    last one sent: either nothing was found and every strategy was
    requested, or the loop stopped right after the attempt whose records
    produced the whole result. *)
Theorem lookup_result_comes_from_last_attempt
    (name : string) (bys : list strategy) (lg : list request)
    (l : list Z) (lg' : list request) :
  lookup server name bys [] lg = (Ret l, lg') ->
  (l = [] /\ lg' = lg ++ library_requests name bys)
  \/ exists before by_k after items,
       bys = before ++ by_k :: after
       /\ lg' = lg ++ library_requests name (before ++ [by_k])
       /\ records_of (server (lg ++ library_requests name before)
                             (GetLibrary by_k name)) = Ret items
       /\ scan_items name items [] = Ret l
       /\ l <> [].
Proof.
  revert lg. induction bys as [|b bys IH]; intros lg.
  - simpl. unfold io_ret. intros [= <- <-]. left. by rewrite app_nil_r.
  - cbn [lookup]. unfold io_bind, send, io_lift, io_ret.
    assert (Hnext : lookup server name bys [] (lg ++ [GetLibrary b name])
                    = (Ret l, lg') ->
                    (l = [] /\ lg' = lg ++ library_requests name (b :: bys))
                    \/ exists before by_k after items,
                         b :: bys = before ++ by_k :: after
                         /\ lg' = lg ++ library_requests name (before ++ [by_k])
                         /\ records_of (server (lg ++ library_requests name before)
                                               (GetLibrary by_k name)) = Ret items
                         /\ scan_items name items [] = Ret l
                         /\ l <> []).
    { intros Hrun.
      destruct (IH _ Hrun)
        as [[-> ->]|(before & by_k & after & items & -> & -> & Hrec & Hl & Hne)].
      - left. by rewrite library_requests_cons.
      - right. exists (b :: before), by_k, after, items.
        rewrite library_requests_cons in Hrec.
        by rewrite library_requests_cons. }
    destruct (library_data (server lg (GetLibrary b name))) as [data|] eqn:Hdata;
      [|done].
    destruct (py_iter data) as [items|e] eqn:Hiter; [|discriminate].
    destruct (scan_items name items []) as [[|i found]|e] eqn:Hscan;
      [done| |discriminate].
    intros [= <- <-]. right. exists [], b, bys, items.
    unfold records_of. simpl. rewrite app_nil_r, Hdata.
    done.
Qed.

(** *** What the Locator sends *)

Lemma lookup_log name bys : forall found lg,
  exists k,
    snd (lookup server name bys found lg)
    = lg ++ library_requests name (take k bys).
Proof.
  induction bys as [|b bys IH]; intros found lg.
  - exists 0%nat. simpl. by rewrite app_nil_r.
  - cbn [lookup]. unfold io_bind, send, io_lift, io_ret.
    assert (Hnext : forall found',
               exists k,
                 snd (lookup server name bys found' (lg ++ [GetLibrary b name]))
                 = lg ++ library_requests name (take k (b :: bys))).
    { intros found'. destruct (IH found' (lg ++ [GetLibrary b name])) as [k Hk].
      exists (S k). by rewrite Hk, library_requests_cons. }
    assert (Hstop : lg ++ [GetLibrary b name]
                    = lg ++ library_requests name (take 1 (b :: bys)))
      by done.
    destruct (library_data (server lg (GetLibrary b name))) as [data|];
      [|apply Hnext].
    destruct (py_iter data) as [items|e]; [|by exists 1%nat].
    destruct (scan_items name items found) as [[|i found']|e];
      [apply Hnext|by exists 1%nat|by exists 1%nat].
Qed.

Lemma library_requests_for name names bys :
  name ∈ names -> Forall (library_request_for names) (library_requests name bys).
Proof.
  intros Hin. unfold library_requests. apply Forall_fmap, Forall_forall.
  by intros b _.
Qed.

Lemma library_request_for_mono name names rq :
  library_request_for names rq -> library_request_for (name :: names) rq.
Proof. destruct rq; simpl; try done. by right. Qed.

Lemma find_loop_log names : forall res lg,
  exists reqs,
    snd (find_loop server names res lg) = lg ++ reqs
    /\ Forall (library_request_for names) reqs
    /\ (length reqs <= 3 * length names)%nat.
Proof.
  induction names as [|name names IH]; intros res lg.
  - exists []. simpl. by rewrite app_nil_r.
  - cbn [find_loop]. unfold io_bind.
    destruct (lookup_log name tried [] lg) as [k Hk].
    assert (Hlen : (length (library_requests name (take k tried)) <= 3)%nat).
    { unfold library_requests. rewrite length_fmap, length_take.
      unfold tried. simpl. lia. }
    assert (Hfor : Forall (library_request_for (name :: names))
                     (library_requests name (take k tried))).
    { apply library_requests_for. left. }
    destruct (lookup server name tried [] lg) as [[found|e] lg1]; simpl in Hk;
      subst lg1.
    + destruct (IH (<[name := found]> res)
                   (lg ++ library_requests name (take k tried)))
        as (reqs & Hlog & Hreqs & Hbound).
      exists (library_requests name (take k tried) ++ reqs).
      rewrite Hlog, <- app_assoc. split; [done|]. split.
      * apply Forall_app. split; [done|].
        eapply Forall_impl; [exact Hreqs|].
        intros rq. apply library_request_for_mono.
      * rewrite length_app. simpl. lia.
    + exists (library_requests name (take k tried)). simpl.
      split; [done|]. split; [done|]. lia.
Qed.

(** X3: whatever the CMS answers and however the call ends, the Locator
    sends nothing but library searches for the queried names, and at most
    three of them per name. *)
Theorem locator_sends_only_library_requests
    (names : list string) (lg : list request) :
  exists reqs,
    snd (find_media_ids_for_names server names lg) = lg ++ reqs
    /\ Forall (library_request_for names) reqs
    /\ (length reqs <= 3 * length names)%nat.
Proof. apply find_loop_log. Qed.

(** *** What the Locator returns *)

Lemma find_loop_keys names : forall res0 lg res lg',
  find_loop server names res0 lg = (Ret res, lg') ->
  forall n, is_Some (res !! n) <-> n ∈ names \/ is_Some (res0 !! n).
Proof.
  induction names as [|name names IH]; intros res0 lg res lg'.
  - simpl. unfold io_ret. intros [= <- _] n. split; [by right|].
    intros [Hin|H]; [by apply elem_of_nil in Hin|done].
  - cbn [find_loop]. unfold io_bind.
    destruct (lookup server name tried [] lg) as [[found|e] lg1]; [|discriminate].
    intros Hrun n. rewrite (IH _ _ _ _ Hrun n), elem_of_cons.
    destruct (decide (name = n)) as [->|Hne].
    + rewrite lookup_insert_eq. split; [by left; left|by right].
    + rewrite lookup_insert_ne by done. split.
      * intros [?|?]; [left; by right|by right].
      * intros [[?|?]|?]; [congruence|by left|by right].
Qed.

(** X4: when the Locator returns, its result has an entry for every queried
    name, found or not, and for no other name. *)
Theorem locator_result_has_every_name
    (names : list string) (lg : list request)
    (res : gmap string (list Z)) (lg' : list request) :
  find_media_ids_for_names server names lg = (Ret res, lg') ->
  forall n, is_Some (res !! n) <-> n ∈ names.
Proof.
  intros Hrun n. rewrite (find_loop_keys _ _ _ _ _ Hrun n), lookup_empty.
  split; [|by left]. intros [?|[? ?]]; [done|discriminate].
Qed.

Lemma find_loop_no_match names : forall res0 lg,
  (forall lg1 b n, n ∈ names -> no_match n (server lg1 (GetLibrary b n))) ->
  exists res,
    find_loop server names res0 lg
    = (Ret res, lg ++ flat_map (fun n => library_requests n tried) names)
    /\ forall n, n ∈ names -> res !! n = Some [].
Proof.
  induction names as [|name names IH]; intros res0 lg Hnone.
  - exists res0. simpl. unfold io_ret. rewrite app_nil_r. split; [done|].
    intros n Hin. by apply elem_of_nil in Hin.
  - cbn [find_loop flat_map]. unfold io_bind.
    pose proof (lookup_skips server name tried lg []) as Hskip.
    rewrite app_nil_r in Hskip. rewrite Hskip.
    2:{ intros b1 b b2 _. apply Hnone. left. }
    cbn [lookup]. unfold io_ret.
    destruct (IH (<[name := []]> res0) (lg ++ library_requests name tried))
      as (res & Hrun & Hres).
    { intros lg1 b n Hin. apply Hnone. by right. }
    exists res. rewrite Hrun, <- app_assoc. split; [done|].
    intros n Hin. apply elem_of_cons in Hin as [->|Hin]; [|by apply Hres].
    destruct (decide (name ∈ names)) as [Hin|Hnot]; [by apply Hres|].
    clear Hres Hskip IH.
    assert (Hkeep : forall names' res1 lg1 res2 lg2,
               find_loop server names' res1 lg1 = (Ret res2, lg2) ->
               name ∉ names' -> res2 !! name = res1 !! name).
    { induction names' as [|x names' IH']; intros res1 lg1 res2 lg2.
      - simpl. unfold io_ret. by intros [= <- _] _.
      - cbn [find_loop]. unfold io_bind.
        destruct (lookup server x tried [] lg1) as [[found|e] lg3];
          [|discriminate].
        intros Hrun' Hnotin. apply not_elem_of_cons in Hnotin as [Hne Hnotin].
        rewrite (IH' _ _ _ _ Hrun' Hnotin). by rewrite lookup_insert_ne. }
    rewrite (Hkeep _ _ _ _ _ Hrun Hnot). apply lookup_insert_eq.
Qed.

Lemma attempt_is_empty_no_match name rp :
  attempt_is_empty rp -> no_match name rp.
Proof.
  intros Hempty. exists []. split; [|done].
  unfold records_of, library_data. destruct rp as [msg|r]; [done|].
  simpl in Hempty. destruct (Z.eqb_spec (status_code r) 200) as [H200|Hne];
    simpl; [|done].
  destruct Hempty as [Hst|[Hjson|Hjson]]; [done| |by rewrite Hjson].
  destruct (json r) as [v| |e]; [|done|done]. by destruct (Hjson v).
Qed.

(** X5: when every attempt for the queried names brings nothing (the
    request raises, the status is not 200, the body does not decode, or it
    decodes to the empty list), the Locator returns: every name maps to the
    empty list and each name has had its three attempts, in order. *)
Theorem locator_without_match_returns_empty_lists
    (names : list string) (lg : list request) :
  (forall lg1 b n, n ∈ names -> attempt_is_empty (server lg1 (GetLibrary b n))) ->
  exists res,
    find_media_ids_for_names server names lg
    = (Ret res, lg ++ flat_map (fun n => library_requests n tried) names)
    /\ forall n, n ∈ names -> res !! n = Some [].
Proof.
  intros Hempty. apply find_loop_no_match.
  intros lg1 b n Hin. apply attempt_is_empty_no_match. by apply Hempty.
Qed.

End LocatorRuns.

(** X6: the empty name matches every record whose file name is a string or
    is missing, so such a record counts as soon as it carries an
    identifier. *)
Theorem empty_name_matches_every_record (d : list (string * pyval)) :
  (truthy (get d "fileName") = false \/ exists s, get d "fileName" = PStr s) ->
  matches d EmptyString = Ret true
  /\ is_hit EmptyString (PDict d) = truthy (media_id_of d).
Proof.
  intros Hfile.
  assert (Hm : matches d EmptyString = Ret true).
  { unfold matches, py_or.
    destruct (eq_str (get d "fileName") EmptyString); [done|].
    destruct (eq_str (get d "name") EmptyString); [done|].
    destruct Hfile as [-> | [s Hs]]; [done|].
    rewrite Hs. simpl. destruct s; [done|]. simpl.
    by destruct s. }
  split; [done|]. unfold is_hit. rewrite Hm. apply andb_true_r.
Qed.

(** ** The Reconciler as a whole *)

Section ReconcilerRuns.

Variable server : list request -> request -> reply.

Lemma attempts_length ts : forall lg,
  length (attempts server lg ts) = length ts.
Proof.
  induction ts as [|[m w] ts IH]; intros lg; simpl; [done|]. by rewrite IH.
Qed.

Lemma successes_length atts : (length (successes atts) <= length atts)%nat.
Proof.
  unfold successes. rewrite length_fmap. apply List.filter_length_le.
Qed.

Lemma delete_requests_widgets ts :
  delete_requests ts = DeleteWidget <$> (snd <$> ts).
Proof. unfold delete_requests. by rewrite <- list_fmap_compose. Qed.

Lemma targets_empty old : targets ∅ old = [].
Proof.
  unfold targets. induction old as [|mid old IH]; simpl; [done|].
  rewrite IH. destruct (int_opt mid); [|done]. by rewrite lookup_empty.
Qed.

Lemma raise_for_status_none r :
  raise_for_status r = None -> ~ status_is_error r.
Proof.
  unfold raise_for_status, status_is_error. intros H [Hlo Hhi].
  apply Z.leb_le in Hlo. apply Z.ltb_lt in Hhi. by rewrite Hlo, Hhi in H.
Qed.

Lemma decode_raises rp e : decode rp = Raise e -> reply_breaks rp e.
Proof.
  destruct rp as [msg|r]; simpl; [done|].
  destruct (raise_for_status r) eqn:Hst; [done|].
  apply raise_for_status_none in Hst.
  destruct (json r) as [v| |e']; try done. by intros [= ->].
Qed.

Lemma decode_returns_value rp v : decode rp = Ret (inr v) -> reply_value rp v.
Proof.
  destruct rp as [msg|r]; simpl; [done|].
  destruct (raise_for_status r) eqn:Hst; [done|].
  apply raise_for_status_none in Hst.
  destruct (json r) as [v'| |e']; try done. by intros [= ->].
Qed.

(** Every way a call can end. *)
Lemma run_shape pid new old lg :
  (exists e,
      decode (server lg (GetPlaylist pid)) = Raise e
      /\ assign_media_to_playlist server pid new old lg
         = (Raise e, lg ++ [GetPlaylist pid]))
  \/ (exists e p rest,
         decode (server lg (GetPlaylist pid)) = Ret (inr (PList (p :: rest)))
         /\ build_widget_map p = Raise e
         /\ assign_media_to_playlist server pid new old lg
            = (Raise e, lg ++ [GetPlaylist pid]))
  \/ (exists e p rest wm,
         decode (server lg (GetPlaylist pid)) = Ret (inr (PList (p :: rest)))
         /\ build_widget_map p = Ret wm
         /\ new <> []
         /\ decode (server (lg ++ [GetPlaylist pid]
                               ++ delete_requests (targets wm old))
                           (AssignMedia pid new)) = Raise e
         /\ assign_media_to_playlist server pid new old lg
            = (Raise e,
               lg ++ [GetPlaylist pid] ++ delete_requests (targets wm old)
                  ++ [AssignMedia pid new]))
  \/ (exists res ws assigns,
         assign_media_to_playlist server pid new old lg
         = (Ret res, lg ++ [GetPlaylist pid] ++ (DeleteWidget <$> ws) ++ assigns)
         /\ ((assigns = [] /\ assigned res = PNone)
             \/ (assigns = [AssignMedia pid new] /\ new <> []))
         /\ (length (deleted res) <= length ws)%nat).
Proof.
  destruct (decode (server lg (GetPlaylist pid))) as [[e|v]|e] eqn:Hfetch.
  - right. right. right.
    exists {| deleted := []; assigned := PNone; notes := [FailedToFetch e] |}, [], [].
    unfold assign_media_to_playlist, io_bind. rewrite call_json_run, Hfetch.
    simpl. split; [done|]. split; [by left|done].
  - destruct (is_nonempty_list v) eqn:Hv.
    + destruct v as [| | | | |[|p rest]|]; try discriminate.
      rewrite (fetched_run _ _ _ _ _ _ _ Hfetch).
      destruct (build_widget_map p) as [wm|e] eqn:Hbuild.
      * destruct (decide (wm = ∅)) as [->|Hne].
        -- rewrite (empty_map_run _ _ _ _ _ _ Hbuild).
           destruct new as [|x new].
           ++ right. right. right. eexists _, [], []. simpl.
              split; [done|]. split; [by left|done].
           ++ rewrite assign_directly_run.
              destruct (decode (server (lg ++ [GetPlaylist pid])
                                       (AssignMedia pid (x :: new))))
                as [[e|payload]|e] eqn:Hassign.
              ** right. right. right.
                 eexists _, [], [AssignMedia pid (x :: new)]. simpl.
                 rewrite <- app_assoc. split; [done|]. split; [by right|done].
              ** right. right. right.
                 eexists _, [], [AssignMedia pid (x :: new)]. simpl.
                 rewrite <- app_assoc. split; [done|]. split; [by right|done].
              ** right. right. left. exists e, p, rest, ∅.
                 rewrite targets_empty. simpl. rewrite Hassign, <- app_assoc.
                 done.
        -- destruct new as [|x new].
           ++ rewrite (nonempty_map_run _ _ _ _ _ _ _ Hbuild Hne).
              destruct (delete_old_run server wm old
                          {| p_deleted := []; p_notes := [Discovered pid wm] |}
                          (lg ++ [GetPlaylist pid]))
                as (st' & extra & Hrun & Hdel & _).
              simpl in Hdel. unfold io_bind. rewrite Hrun. simpl. unfold io_ret.
              right. right. right.
              eexists _, (snd <$> targets wm old), [].
              rewrite delete_requests_widgets, app_nil_r, <- app_assoc.
              split; [done|]. split; [by left|]. simpl.
              rewrite Hdel, length_fmap.
              etransitivity; [apply successes_length|].
              by rewrite attempts_length.
           ++ rewrite <- (fetched_run _ _ (x :: new) old _ _ _ Hfetch).
              destruct (deletion_branch_run server pid x new old lg p rest wm
                          Hfetch Hbuild Hne) as (noted & _ & ->).
              destruct (decode (server (lg ++ [GetPlaylist pid]
                                           ++ delete_requests (targets wm old))
                                       (AssignMedia pid (x :: new))))
                as [[e|payload]|e] eqn:Hassign.
              ** right. right. right.
                 eexists _, (snd <$> targets wm old), [AssignMedia pid (x :: new)].
                 rewrite delete_requests_widgets.
                 split; [done|]. split; [by right|]. simpl.
                 rewrite length_fmap.
                 etransitivity; [apply successes_length|].
                 by rewrite attempts_length.
              ** right. right. right.
                 eexists _, (snd <$> targets wm old), [AssignMedia pid (x :: new)].
                 rewrite delete_requests_widgets.
                 split; [done|]. split; [by right|]. simpl.
                 rewrite length_fmap.
                 etransitivity; [apply successes_length|].
                 by rewrite attempts_length.
              ** right. right. left. by exists e, p, rest, wm.
      * right. left. exists e, p, rest. split; [done|]. split; [done|].
        unfold reconcile_playlist, io_bind, io_lift. by rewrite Hbuild.
    + right. right. right.
      exists {| deleted := []; assigned := PNone;
                notes := [NotFoundOrEmpty pid v] |}, [], [].
      unfold assign_media_to_playlist, io_bind. rewrite call_json_run, Hfetch.
      simpl. split.
      * by destruct v as [| | | | |[|p rest]|].
      * split; [by left|done].
  - left. exists e. split; [done|].
    unfold assign_media_to_playlist, io_bind. by rewrite call_json_run, Hfetch.
Qed.

(** X7: an exception leaves the Reconciler in exactly three situations:
    decoding the fetched body raises something that is no request
    exception, building the widget map raises, or decoding the body of the
    assign reply raises something that is no request exception.  In the
    first two the fetch is the only request that was sent; in the third the
    deletions and the assign call were sent. *)
Theorem reconciler_raises_in_three_situations
    (pid : Z) (new : list Z) (old : list pyval) (lg : list request)
    (e : pyexn) (lg' : list request) :
  assign_media_to_playlist server pid new old lg = (Raise e, lg')
  <-> (reply_breaks (server lg (GetPlaylist pid)) e
       /\ lg' = lg ++ [GetPlaylist pid])
      \/ (exists p rest,
             reply_value (server lg (GetPlaylist pid)) (PList (p :: rest))
             /\ build_widget_map p = Raise e
             /\ lg' = lg ++ [GetPlaylist pid])
      \/ (exists p rest wm,
             reply_value (server lg (GetPlaylist pid)) (PList (p :: rest))
             /\ build_widget_map p = Ret wm
             /\ new <> []
             /\ reply_breaks
                  (server (lg ++ [GetPlaylist pid]
                              ++ delete_requests (targets wm old))
                          (AssignMedia pid new)) e
             /\ lg' = lg ++ [GetPlaylist pid]
                         ++ delete_requests (targets wm old)
                         ++ [AssignMedia pid new]).
Proof.
  split.
  - intros Hrun.
    destruct (run_shape pid new old lg)
      as [(e' & Hfetch & Hrun')
         |[(e' & p & rest & Hfetch & Hbuild & Hrun')
          |[(e' & p & rest & wm & Hfetch & Hbuild & Hnew & Hassign & Hrun')
           |(res & ws & assigns & Hrun' & _)]]];
      rewrite Hrun' in Hrun; try discriminate;
      injection Hrun as He Hlg; subst e' lg'.
    + left. split; [by apply decode_raises|done].
    + right. left. exists p, rest. split; [by apply decode_returns_value|done].
    + right. right. exists p, rest, wm.
      split; [by apply decode_returns_value|]. split; [done|].
      split; [done|]. split; [by apply decode_raises|done].
  - intros [[Hbreak ->]
           |[(p & rest & Hfetch & Hbuild & ->)
            |(p & rest & wm & Hfetch & Hbuild & Hnew & Hbreak & ->)]].
    + apply decode_breaks in Hbreak.
      unfold assign_media_to_playlist, io_bind. by rewrite call_json_run, Hbreak.
    + apply decode_value in Hfetch. rewrite (fetched_run _ _ _ _ _ _ _ Hfetch).
      unfold reconcile_playlist, io_bind, io_lift. by rewrite Hbuild.
    + apply decode_value in Hfetch. apply decode_breaks in Hbreak.
      destruct new as [|x new]; [done|].
      destruct (decide (wm = ∅)) as [->|Hne].
      * rewrite (fetched_run _ _ _ _ _ _ _ Hfetch),
          (empty_map_run _ _ _ _ _ _ Hbuild), assign_directly_run.
        rewrite targets_empty in *. simpl in *.
        by rewrite Hbreak, <- app_assoc.
      * destruct (deletion_branch_run server pid x new old lg p rest wm
                    Hfetch Hbuild Hne) as (noted & _ & ->).
        by rewrite Hbreak.
Qed.

(** X8: when the Reconciler returns, the requests it has sent are the fetch,
    then delete requests only, then at most one assign call, which comes
    last; no assign call is sent for an empty [new], an assigned result other
    than [None] means the assign call was sent, and [deleted] has no more
    pairs than delete requests were sent. *)
Theorem reconciler_request_sequence
    (pid : Z) (new : list Z) (old : list pyval) (lg : list request)
    (res : result) (lg' : list request) :
  assign_media_to_playlist server pid new old lg = (Ret res, lg') ->
  exists ws assigns,
    lg' = lg ++ [GetPlaylist pid] ++ (DeleteWidget <$> ws) ++ assigns
    /\ (assigns = [] \/ (assigns = [AssignMedia pid new] /\ new <> []))
    /\ (assigned res <> PNone -> assigns = [AssignMedia pid new])
    /\ (length (deleted res) <= length ws)%nat.
Proof.
  intros Hrun.
  destruct (run_shape pid new old lg)
    as [(e' & _ & Hrun')
       |[(e' & p & rest & _ & _ & Hrun')
        |[(e' & p & rest & wm & _ & _ & _ & _ & Hrun')
         |(res' & ws & assigns & Hrun' & Hassign & Hlen)]]];
    rewrite Hrun' in Hrun; try discriminate.
  injection Hrun as -> <-. exists ws, assigns. split; [done|].
  destruct Hassign as [[-> Hnone]|[-> Hnew]].
  - split; [by left|]. split; [|done]. intros Hsome. by destruct Hsome.
  - split; [by right|]. done.
Qed.

(** X9: the Reconciler returns whenever the playlist it fetched is
    well-formed and the body of the assign reply, if one is received, does
    not make the decoder raise an exception that is no request
    exception. *)
Theorem reconciler_returns_on_well_formed_playlist
    (pid : Z) (new : list Z) (old : list pyval) (lg : list request)
    (p : pyval) (rest : list pyval) :
  reply_value (server lg (GetPlaylist pid)) (PList (p :: rest)) ->
  well_formed_playlist p = true ->
  (forall lg1 e, ~ reply_breaks (server lg1 (AssignMedia pid new)) e) ->
  exists res lg', assign_media_to_playlist server pid new old lg = (Ret res, lg').
Proof.
  intros Hfetch Hwf Hassign. apply decode_value in Hfetch.
  destruct (build_widget_map_represents p Hwf) as (wm & Hbuild & _).
  destruct (run_shape pid new old lg)
    as [(e' & Hfetch' & _)
       |[(e' & p' & rest' & Hfetch' & Hbuild' & _)
        |[(e' & p' & rest' & wm' & _ & _ & _ & Hbreak & _)
         |(res & ws & assigns & Hrun & _)]]].
  - congruence.
  - rewrite Hfetch in Hfetch'. injection Hfetch' as <- _. congruence.
  - apply decode_raises in Hbreak. by destruct (Hassign _ _ Hbreak).
  - by eexists _, _.
Qed.

End ReconcilerRuns.

(** ** More on the widget map and the deletion loop *)

Lemma wids_for_none refs :
  (forall m, wids_for m refs = []) -> refs = [].
Proof.
  destruct refs as [|[m w] refs]; [done|]. intros H. specialize (H m).
  unfold wids_for in H. simpl in H. rewrite Z.eqb_refl in H. discriminate.
Qed.

(** X10: in a widget map that was built, no media id is listed with an
    empty widget list, and the map is empty exactly when the playlist
    exposes no reference; this is what sends the call to the deletion
    branch or to the direct assignment. *)
Theorem built_map_has_no_empty_entry (p : pyval) (wm : widget_map) :
  build_widget_map p = Ret wm ->
  (forall m l, wm !! m = Some l -> l <> [])
  /\ (wm = ∅ <-> all_refs p = []).
Proof.
  intros Hrun. pose proof (build_widget_map_returned p wm Hrun) as Hrep.
  split.
  - intros m l. rewrite (Hrep m).
    destruct (wids_for m (all_refs p)); [discriminate|]. by intros [= <-].
  - split.
    + intros ->. apply wids_for_none. intros m. specialize (Hrep m).
      rewrite lookup_empty in Hrep. by destruct (wids_for m (all_refs p)).
    + intros Hnil. apply map_empty. intros m. rewrite (Hrep m), Hnil. done.
Qed.

Section DeletionLoop.

Variable server : list request -> request -> reply.

Lemma targets_app wm old1 old2 :
  targets wm (old1 ++ old2) = targets wm old1 ++ targets wm old2.
Proof. unfold targets. by rewrite flat_map_app. Qed.

Lemma targets_one wm mid m wids :
  py_int mid = Ret m -> wm !! m = Some wids ->
  targets wm [mid] = (fun w => (m, w)) <$> wids.
Proof.
  intros Hint Hlook. unfold targets, int_opt. simpl.
  by rewrite Hint, Hlook, app_nil_r.
Qed.

(** X11: an old media id that is listed twice has its widgets requested
    for deletion twice, whatever the CMS answered the first time: the loop
    over [mid :: old ++ [mid]] sends the delete requests for the widgets of
    [mid], then those for [old], then those for the widgets of [mid]
    again. *)
Theorem repeated_old_id_is_deleted_again
    (wm : widget_map) (mid : pyval) (m : Z) (wids : list Z)
    (old : list pyval) (st : progress) (lg : list request) :
  py_int mid = Ret m ->
  wm !! m = Some wids ->
  snd (delete_old server wm (mid :: old ++ [mid]) st lg)
  = lg ++ (DeleteWidget <$> wids) ++ delete_requests (targets wm old)
       ++ (DeleteWidget <$> wids).
Proof.
  intros Hint Hlook.
  destruct (delete_old_run server wm (mid :: old ++ [mid]) st lg)
    as (st' & extra & -> & _).
  cbn [snd]. f_equal.
  change (mid :: old ++ [mid]) with ([mid] ++ old ++ [mid]).
  rewrite !targets_app, (targets_one _ _ _ _ Hint Hlook).
  unfold delete_requests. rewrite !fmap_app, <- !list_fmap_compose. done.
Qed.

Lemma delete_old_notes wm old : forall st lg,
  exists st' extra,
    fst (delete_old server wm old st lg) = Ret st'
    /\ p_notes st' = p_notes st ++ extra
    /\ forall mid,
         mid ∈ old ->
         match py_int mid with
         | Raise _ => SkippingInvalid mid ∈ extra
         | Ret m => default [] (wm !! m) = [] -> NoWidgetFound m ∈ extra
         end.
Proof.
  induction old as [|mid old IH]; intros st lg.
  - exists st, []. rewrite app_nil_r. split; [done|]. split; [done|].
    intros mid Hin. by apply elem_of_nil in Hin.
  - cbn [delete_old].
    destruct (py_int mid) as [m|e] eqn:Hint.
    + destruct (default [] (wm !! m)) as [|w wids] eqn:Hw.
      * destruct (IH (add_note (NoWidgetFound m) st) lg)
          as (st' & extra & Hrun & Hnotes & Hall).
        exists st', (NoWidgetFound m :: extra). split; [done|].
        simpl in Hnotes. rewrite <- app_assoc in Hnotes. split; [done|].
        intros mid' Hin. apply elem_of_cons in Hin as [->|Hin].
        -- rewrite Hint. intros _. left.
        -- specialize (Hall mid' Hin). destruct (py_int mid'); [|by right].
           intros H. right. by apply Hall.
      * destruct (delete_widgets_run server m (w :: wids) st lg)
          as (st1 & Hrun1 & _ & Hnotes1).
        destruct (IH st1 (lg ++ (DeleteWidget <$> w :: wids)))
          as (st' & extra & Hrun & Hnotes & Hall).
        unfold io_bind. rewrite Hrun1.
        exists st', ((attempt_note
                        <$> attempts server lg ((fun w0 => (m, w0)) <$> w :: wids))
                     ++ extra).
        split; [done|]. rewrite Hnotes, Hnotes1, <- app_assoc. split; [done|].
        intros mid' Hin. apply elem_of_cons in Hin as [->|Hin].
        -- rewrite Hint, Hw. discriminate.
        -- specialize (Hall mid' Hin). destruct (py_int mid').
           ++ intros H. apply elem_of_app. right. by apply Hall.
           ++ apply elem_of_app. by right.
    + destruct (IH (add_note (SkippingInvalid mid) st) lg)
        as (st' & extra & Hrun & Hnotes & Hall).
      exists st', (SkippingInvalid mid :: extra). split; [done|].
      simpl in Hnotes. rewrite <- app_assoc in Hnotes. split; [done|].
      intros mid' Hin. apply elem_of_cons in Hin as [->|Hin].
      * rewrite Hint. left.
      * specialize (Hall mid' Hin). destruct (py_int mid'); [|by right].
        intros H. right. by apply Hall.
Qed.

(** X12: the deletion loop keeps the notes it started with and reports
    every old media id it skips: an id that is not integer-coercible leaves
    a note naming it, and an id without widgets in the map leaves a note
    naming its integer value. *)
Theorem delete_old_reports_skipped_ids
    (wm : widget_map) (old : list pyval) (st : progress) (lg : list request) :
  exists st',
    fst (delete_old server wm old st lg) = Ret st'
    /\ p_notes st `prefix_of` p_notes st'
    /\ forall mid,
         mid ∈ old ->
         match py_int mid with
         | Raise _ => SkippingInvalid mid ∈ p_notes st'
         | Ret m => wm !! m = None -> NoWidgetFound m ∈ p_notes st'
         end.
Proof.
  destruct (delete_old_notes wm old st lg) as (st' & extra & Hrun & Hnotes & Hall).
  exists st'. split; [done|]. rewrite Hnotes. split; [by exists extra|].
  intros mid Hin. specialize (Hall mid Hin).
  destruct (py_int mid) as [m|e].
  - intros Hnone. apply elem_of_app. right. apply Hall. by rewrite Hnone.
  - apply elem_of_app. by right.
Qed.

End DeletionLoop.

(** ** The sync driver *)

Lemma existsb_eqb_elem (s : string) (l : list string) :
  existsb (String.eqb s) l = true <-> s ∈ l.
Proof.
  rewrite existsb_exists, list_elem_of_In. split.
  - intros (y & Hin & Heq). apply String.eqb_eq in Heq. by subst.
  - intros Hin. exists s. split; [done|]. apply String.eqb_refl.
Qed.

Lemma filter_all_true {A : Type} (f : A -> bool) (l : list A) :
  (forall x, x ∈ l -> f x = true) -> List.filter f l = l.
Proof.
  induction l as [|y l IH]; intros H; simpl; [done|].
  rewrite (H y) by left. f_equal. apply IH. intros x Hx. apply H. by right.
Qed.

Lemma filter_twice {A : Type} (f g : A -> bool) (l : list A) :
  List.filter f (List.filter g l) = List.filter (fun x => g x && f x) l.
Proof.
  induction l as [|y l IH]; simpl; [done|].
  destruct (g y); simpl; [|done]. destruct (f y); by rewrite IH.
Qed.

Lemma remove_first_filter (s : string) (l : list string) :
  NoDup l ->
  remove_first s l = List.filter (fun n => negb (String.eqb s n)) l.
Proof.
  induction l as [|y l IH]; intros Hnd; simpl; [done|].
  apply NoDup_cons in Hnd as [Hy Hnd].
  destruct (String.eqb_spec s y) as [->|Hne]; simpl.
  - symmetry. apply filter_all_true. intros x Hx.
    destruct (String.eqb_spec y x) as [->|_]; done.
  - f_equal. by apply IH.
Qed.

Lemma remove_first_length (s : string) (l : list string) :
  s ∈ l -> S (length (remove_first s l)) = length l.
Proof.
  induction l as [|y l IH]; intros Hin; simpl.
  - by apply elem_of_nil in Hin.
  - destruct (String.eqb_spec s y) as [->|Hne]; [done|]. simpl. f_equal.
    apply IH. apply elem_of_cons in Hin as [?|?]; [congruence|done].
Qed.

Lemma remove_first_keeps (s n : string) (l : list string) :
  n ∈ l -> n <> s -> n ∈ remove_first s l.
Proof.
  induction l as [|y l IH]; intros Hin Hne; simpl; [done|].
  apply elem_of_cons in Hin as [->|Hin].
  - destruct (String.eqb_spec s y) as [->|_]; [done|left].
  - destruct (String.eqb_spec s y) as [_|_]; [done|]. right. by apply IH.
Qed.

Lemma NoDup_list_filter {A : Type} (f : A -> bool) (l : list A) :
  NoDup l -> NoDup (List.filter f l).
Proof.
  induction 1 as [|y l Hy Hnd IH]; simpl; [constructor|].
  destruct (f y); [|done]. constructor; [|done].
  rewrite list_elem_of_In, List.filter_In, <- list_elem_of_In. tauto.
Qed.

Lemma py_index_dict item k v :
  py_index item k = inr v ->
  exists d, item = PDict d /\ dict_get k d = Some v /\ get d k = v.
Proof.
  destruct item as [| | | | | |d]; try discriminate. simpl. unfold get.
  destruct (dict_get k d) as [v'|] eqn:Hd; [|discriminate].
  intros [= <-]. exists d. by rewrite Hd.
Qed.

Section DriverProperties.

Variable mtime : string -> pyfloat.

(** The three ways one manifest entry is filed. *)
Lemma check_item_cases item ch ch' :
  check_item mtime item ch = inr ch' ->
  exists d,
    item = PDict d
    /\ ((exists s,
            get d "name" = PStr s /\ s ∈ target_files ch
            /\ float_eq_val (mtime s) (get d "timestamp") = true
            /\ ch' = {| target_files := remove_first s (target_files ch);
                        files_to_replace := files_to_replace ch;
                        files_to_remove := files_to_remove ch |})
        \/ (exists s fmt,
               get d "name" = PStr s /\ s ∈ target_files ch
               /\ float_eq_val (mtime s) (get d "timestamp") = false
               /\ ch' = {| target_files := target_files ch;
                           files_to_replace := files_to_replace ch ++ [fmt];
                           files_to_remove := files_to_remove ch |})
        \/ (exists fmt,
               (forall s, get d "name" = PStr s -> s ∉ target_files ch)
               /\ ch' = {| target_files := target_files ch;
                           files_to_replace := files_to_replace ch;
                           files_to_remove := files_to_remove ch ++ [fmt] |})).
Proof.
  unfold check_item.
  destruct (py_index item "name") as [e|name] eqn:Hname; [discriminate|].
  apply py_index_dict in Hname as (d & -> & _ & Hget).
  intros Hrun. exists d. split; [done|].
  assert (Hmark : mark_removed (PDict d) ch = inr ch' ->
                  exists fmt,
                    ch' = {| target_files := target_files ch;
                             files_to_replace := files_to_replace ch;
                             files_to_remove := files_to_remove ch ++ [fmt] |}).
  { unfold mark_removed.
    destruct (py_index (PDict d) "formatname") as [e|fmt]; [discriminate|].
    intros [= <-]. by exists fmt. }
  destruct name as [| | | |s| |];
    try (right; right; destruct (Hmark Hrun) as [fmt ->]; exists fmt;
         split; [intros s Hs; congruence|done]).
  destruct (existsb (String.eqb s) (target_files ch)) eqn:Hin.
  - apply existsb_eqb_elem in Hin.
    destruct (py_index (PDict d) "timestamp") as [e|ts] eqn:Hts; [discriminate|].
    apply py_index_dict in Hts as (d' & [= <-] & _ & Hgts).
    destruct (float_eq_val (mtime s) ts) eqn:Heq.
    + left. exists s. rewrite Hgts. by injection Hrun as <-.
    + right. left.
      destruct (py_index (PDict d) "formatname") as [e|fmt]; [discriminate|].
      exists s, fmt. rewrite Hgts. by injection Hrun as <-.
  - right. right. destruct (Hmark Hrun) as [fmt ->]. exists fmt.
    split; [|done]. intros s' Hs'. rewrite Hget in Hs'. injection Hs' as <-.
    intros Hel. apply existsb_eqb_elem in Hel. congruence.
Qed.

Lemma scan_known_uploads items : forall ch ch',
  scan_known mtime items ch = inr ch' ->
  NoDup (target_files ch) ->
  target_files ch'
  = List.filter (fun n => negb (existsb (known_unchanged mtime n) items))
                (target_files ch).
Proof.
  induction items as [|item items IH]; intros ch ch'; simpl.
  - intros [= <-] _. symmetry. by apply filter_all_true.
  - destruct (check_item mtime item ch) as [e|ch1] eqn:Hitem; [discriminate|].
    intros Hrun Hnd.
    apply check_item_cases in Hitem
      as (d & -> & [(s & Hname & Hin & Heq & ->)
                   |[(s & fmt & Hname & Hin & Heq & ->)
                    |(fmt & Hout & ->)]]).
    + rewrite (IH _ _ Hrun); simpl.
      2:{ rewrite remove_first_filter by done. by apply NoDup_list_filter. }
      rewrite remove_first_filter, filter_twice by done.
      apply List.filter_ext_in. intros n Hn. rewrite Hname. simpl.
      destruct (String.eqb_spec s n) as [<-|Hne]; simpl; [by rewrite Heq|done].
    + rewrite (IH _ _ Hrun) by done. simpl.
      apply List.filter_ext_in. intros n Hn. rewrite Hname. simpl.
      destruct (String.eqb_spec s n) as [<-|Hne]; simpl; [by rewrite Heq|done].
    + rewrite (IH _ _ Hrun) by done. simpl.
      apply List.filter_ext_in. intros n Hn.
      destruct (get d "name") as [| | | |s| |] eqn:Hname; simpl; try done.
      destruct (String.eqb_spec s n) as [<-|Hne]; simpl; [|done].
      apply list_elem_of_In in Hn. by destruct (Hout s eq_refl).
Qed.

(** X13: the files the script uploads are the files of the directory that
    have no manifest entry carrying their name and their current
    modification time; without a readable manifest that is every file. *)
Theorem files_to_upload_lack_an_unchanged_entry
    (listing : list string) (known : option pyval) (ch : changes) :
  diff_known_files mtime listing known = inr ch ->
  NoDup listing ->
  target_files ch
  = List.filter
      (fun n => negb (existsb (known_unchanged mtime n) (known_items known)))
      listing.
Proof.
  unfold diff_known_files, known_items, elements_of.
  destruct known as [data|].
  - destruct (py_iter data) as [items|e]; [|discriminate].
    intros Hrun Hnd. by apply (scan_known_uploads _ _ _ Hrun).
  - intros [= <-] _. simpl. symmetry. by apply filter_all_true.
Qed.

Lemma scan_known_counts items : forall ch ch',
  scan_known mtime items ch = inr ch' ->
  (length (target_files ch') + length items
   + length (files_to_replace ch) + length (files_to_remove ch)
   = length (target_files ch)
     + length (files_to_replace ch') + length (files_to_remove ch'))%nat.
Proof.
  induction items as [|item items IH]; intros ch ch'; simpl.
  - intros [= <-]. lia.
  - destruct (check_item mtime item ch) as [e|ch1] eqn:Hitem; [discriminate|].
    intros Hrun. apply IH in Hrun.
    apply check_item_cases in Hitem
      as (d & -> & [(s & Hname & Hin & Heq & ->)
                   |[(s & fmt & Hname & Hin & Heq & ->)
                    |(fmt & Hout & ->)]]);
      simpl in Hrun; rewrite ?length_app in Hrun; simpl in Hrun.
    + apply remove_first_length in Hin. lia.
    + lia.
    + lia.
Qed.

(** X14: every manifest entry is accounted for exactly once, as a file left
    out of the upload, as a format name to replace or as a format name to
    remove. *)
Theorem every_known_entry_is_filed_once
    (listing : list string) (known : option pyval) (ch : changes) :
  diff_known_files mtime listing known = inr ch ->
  (length (target_files ch) + length (known_items known)
   = length listing
     + length (files_to_replace ch) + length (files_to_remove ch))%nat.
Proof.
  unfold diff_known_files, known_items, elements_of.
  destruct known as [data|].
  - destruct (py_iter data) as [items|e]; [|discriminate].
    intros Hrun. apply scan_known_counts in Hrun. simpl in Hrun. lia.
  - intros [= <-]. simpl. lia.
Qed.

Lemma scan_known_keeps items : forall ch ch' n,
  scan_known mtime items ch = inr ch' ->
  n ∈ target_files ch ->
  (forall item, item ∈ items -> item_name item <> PStr n) ->
  n ∈ target_files ch'.
Proof.
  induction items as [|item items IH]; intros ch ch' n; simpl.
  - by intros [= <-].
  - destruct (check_item mtime item ch) as [e|ch1] eqn:Hitem; [discriminate|].
    intros Hrun Hin Hnames. apply (IH _ _ _ Hrun).
    + apply check_item_cases in Hitem
        as (d & -> & [(s & Hname & _ & _ & ->)
                     |[(s & fmt & _ & _ & _ & ->)|(fmt & _ & ->)]]);
        simpl; try done.
      apply remove_first_keeps; [done|]. intros ->.
      by apply (Hnames (PDict d)); [left|].
    + intros item' Hin'. apply Hnames. by right.
Qed.

Lemma scan_known_replace items : forall ch ch',
  scan_known mtime items ch = inr ch' ->
  NoDup (item_name <$> items) ->
  files_to_replace ch' <> files_to_replace ch ->
  target_files ch' <> [].
Proof.
  induction items as [|item items IH]; intros ch ch'; simpl.
  - by intros [= <-] _ H.
  - destruct (check_item mtime item ch) as [e|ch1] eqn:Hitem; [discriminate|].
    intros Hrun Hnd Hrep.
    apply NoDup_cons in Hnd as [Hfresh Hnd].
    apply check_item_cases in Hitem
      as (d & -> & [(s & Hname & _ & _ & ->)
                   |[(s & fmt & Hname & Hin & _ & ->)|(fmt & _ & ->)]]).
    + by apply (IH _ _ Hrun Hnd).
    + assert (Hstays : s ∈ target_files ch').
      { apply (scan_known_keeps _ _ _ _ Hrun); [done|].
        intros item Hitem Heq. apply Hfresh. simpl. rewrite Hname, <- Heq.
        by apply list_elem_of_fmap_2. }
      intros Hnil. rewrite Hnil in Hstays. by apply elem_of_nil in Hstays.
    + by apply (IH _ _ Hrun Hnd).
Qed.

(** X15: when the manifest names each file once, the script exits early
    (no file to upload, no format name to remove) only if there is no
    format name to replace either: nothing that the scan found is
    dropped. *)
Theorem early_exit_leaves_nothing_to_replace
    (listing : list string) (known : option pyval) (ch : changes) :
  diff_known_files mtime listing known = inr ch ->
  NoDup (item_name <$> known_items known) ->
  no_changes ch = true ->
  files_to_replace ch = [].
Proof.
  unfold diff_known_files, known_items, elements_of, no_changes.
  intros Hrun Hnd Hexit. apply andb_prop in Hexit as [Hfiles _].
  apply Nat.eqb_eq, length_zero_iff_nil in Hfiles.
  destruct known as [data|].
  - destruct (py_iter data) as [items|e]; [|discriminate].
    destruct (decide (files_to_replace ch = [])) as [|Hne]; [done|].
    by destruct (scan_known_replace _ _ _ Hrun Hnd Hne).
  - by injection Hrun as <-.
Qed.

(** *** Writing the manifest *)

Lemma build_manifest_names all_files nfn : forall out,
  build_manifest mtime all_files nfn = inr out ->
  kf_name <$> out = all_files
  /\ forall f, f ∈ all_files -> is_Some (nfn !! f).
Proof.
  induction all_files as [|f rest IH]; intros out; simpl.
  - intros [= <-]. split; [done|]. intros f Hf. by apply elem_of_nil in Hf.
  - destruct (nfn !! f) as [fmt|] eqn:Hf; [|discriminate].
    destruct (build_manifest mtime rest nfn) as [e|out'] eqn:Hrest; [discriminate|].
    intros [= <-]. destruct (IH _ eq_refl) as [Hnames Hall].
    split; [by rewrite fmap_cons, Hnames|].
    intros f' Hf'. apply elem_of_cons in Hf' as [->|Hf']; [by rewrite Hf|].
    by apply Hall.
Qed.

Lemma build_manifest_missing all_files nfn f :
  f ∈ all_files -> nfn !! f = None ->
  exists f', build_manifest mtime all_files nfn = inl (KeyError f')
             /\ f' ∈ all_files /\ nfn !! f' = None.
Proof.
  induction all_files as [|g rest IH]; intros Hin Hnone; simpl.
  - by apply elem_of_nil in Hin.
  - destruct (nfn !! g) as [fmt|] eqn:Hg.
    + apply elem_of_cons in Hin as [->|Hin]; [congruence|].
      destruct (IH Hin Hnone) as (f' & -> & Hf' & Hnone').
      exists f'. split; [done|]. split; [by right|done].
    + exists g. split; [done|]. split; [left|done].
Qed.

(** X16: the manifest is built exactly when every file of the final
    listing has a format name recorded in this run; it then lists the files
    in the order of the listing, and otherwise the script ends with
    [KeyError] on a file without one. *)
Theorem manifest_needs_a_format_name_per_file
    (all_files : list string) (nfn : gmap string string) :
  ((forall f, f ∈ all_files -> is_Some (nfn !! f))
   -> exists out,
        build_manifest mtime all_files nfn = inr out
        /\ kf_name <$> out = all_files)
  /\ (forall f,
         f ∈ all_files -> nfn !! f = None ->
         exists f',
           build_manifest mtime all_files nfn = inl (KeyError f')
           /\ f' ∈ all_files /\ nfn !! f' = None).
Proof.
  split.
  - intros Hall.
    destruct (build_manifest mtime all_files nfn) as [e|out] eqn:Hrun.
    + assert (Hcontra : forall l,
                 (forall f, f ∈ l -> is_Some (nfn !! f)) ->
                 build_manifest mtime l nfn <> inl e).
      { induction l as [|g l IHl]; intros Hl; simpl; [discriminate|].
        destruct (Hl g) as [fmt ->]; [left|].
        destruct (build_manifest mtime l nfn) as [e'|out'] eqn:Hl';
          [|discriminate].
        intros [= ->]. apply IHl; [|done]. intros f Hf. apply Hl. by right. }
      by destruct (Hcontra all_files Hall).
    + exists out. split; [done|]. by apply (build_manifest_names _ _ _ Hrun).
  - intros f. apply build_manifest_missing.
Qed.

(** X17: a run that leaves a file out of the upload because the manifest
    says it is unchanged cannot write the new manifest when the directory
    lists the same files at the end: format names are recorded for the
    uploaded files only, and the script ends with [KeyError] on a file it
    did not upload. *)
Theorem unchanged_file_breaks_the_manifest
    (listing : list string) (known : option pyval) (ch : changes)
    (nfn : gmap string string) (n : string) :
  diff_known_files mtime listing known = inr ch ->
  NoDup listing ->
  (forall f, is_Some (nfn !! f) <-> f ∈ target_files ch) ->
  n ∈ listing ->
  existsb (known_unchanged mtime n) (known_items known) = true ->
  exists f,
    build_manifest mtime listing nfn = inl (KeyError f)
    /\ f ∈ listing /\ f ∉ target_files ch.
Proof.
  intros Hrun Hnd Hkeys Hin Hunchanged.
  assert (Hout : n ∉ target_files ch).
  { unfold diff_known_files, known_items, elements_of in *.
    destruct known as [data|]; [|discriminate].
    destruct (py_iter data) as [items|e]; [|discriminate].
    rewrite (scan_known_uploads _ _ _ Hrun Hnd). simpl.
    rewrite list_elem_of_In, List.filter_In, Hunchanged. by intros [_ ?]. }
  assert (Hnone : nfn !! n = None).
  { destruct (nfn !! n) as [fmt|] eqn:Hn; [|done].
    destruct Hout. apply Hkeys. by rewrite Hn. }
  destruct (build_manifest_missing _ _ _ Hin Hnone) as (f & Hf & Hfin & Hfnone).
  exists f. split; [done|]. split; [done|].
  intros Hf'. apply Hkeys in Hf' as [fmt Hfmt]. congruence.
Qed.

End DriverProperties.

(** *** The playlist to update *)

Lemma select_playlist_last pls : forall init r,
  select_playlist pls init = inr r ->
  r = match last (omap named_id pls) with
      | Some i => Some i
      | None => init
      end.
Proof.
  induction pls as [|pl pls IH]; intros init r; simpl.
  - by intros [= <-].
  - destruct (py_index pl "name") as [e|n] eqn:Hname; [discriminate|].
    apply py_index_dict in Hname as (d & -> & _ & Hget).
    change (omap named_id (PDict d :: pls))
      with (match named_id (PDict d) with
            | Some y => y :: omap named_id pls
            | None => omap named_id pls
            end).
    simpl. rewrite Hget.
    destruct (eq_str n dashboard_name).
    + destruct (dict_get "playlistId" d) as [i|]; simpl; [|discriminate].
      intros Hrun. rewrite (IH _ _ Hrun), last_cons.
      change (list_omap pyval pyval named_id pls) with (omap named_id pls).
      by destruct (last (omap named_id pls)).
    + apply IH.
Qed.

(** X18: when the search for the playlist completes, the identifier it
    binds is that of the last playlist named "Shop Dashboard Test" in the
    reply; without such a playlist nothing is bound. *)
Theorem last_named_playlist_wins (playlists : pyval) (r : option pyval) :
  find_playlist_id playlists = inr r ->
  r = last (omap named_id (elements_of playlists)).
Proof.
  unfold find_playlist_id, elements_of.
  destruct (py_iter playlists) as [pls|e]; [|discriminate].
  intros Hrun. rewrite (select_playlist_last _ _ _ Hrun).
  by destruct (last (omap named_id pls)).
Qed.

(** *** Format names *)

Lemma str_take_length n s : (String.length (str_take n s) <= n)%nat.
Proof.
  revert s. induction n as [|n IH]; intros [|a s]; simpl; try lia.
  specialize (IH s). lia.
Qed.

Lemma append_length s1 s2 :
  String.length (s1 +:+ s2) = (String.length s1 + String.length s2)%nat.
Proof. induction s1 as [|a s1 IH]; simpl; [done|]. by rewrite IH. Qed.

Lemma has_char_append c s1 s2 :
  has_char c (s1 +:+ s2) = has_char c s1 || has_char c s2.
Proof.
  induction s1 as [|a s1 IH]; simpl; [done|]. by rewrite IH, orb_assoc.
Qed.

Lemma has_char_remove c s : has_char c (str_remove c s) = false.
Proof.
  induction s as [|a s IH]; simpl; [done|].
  destruct (Ascii.eqb a c) eqn:Ha; simpl; [done|]. by rewrite Ha.
Qed.

Lemma has_char_take c n s :
  has_char c s = false -> has_char c (str_take n s) = false.
Proof.
  revert s. induction n as [|n IH]; intros [|a s]; simpl; try done.
  intros H. apply orb_false_iff in H as [-> H]. simpl. by apply IH.
Qed.

(** X19: whatever the file is called and whatever the clock shows, its
    format name is between 6 and 30 characters long and has no space in
    it. *)
Theorem format_name_is_short_and_has_no_space
    (stem_of : string -> string) (now fn : string) :
  (6 <= String.length (get_format_name stem_of now fn) <= 30)%nat
  /\ has_char " " (get_format_name stem_of now fn) = false.
Proof.
  unfold get_format_name. split.
  - pose proof (str_take_length 10 (str_remove " " (stem_of fn))) as Hstem.
    pose proof (str_take_length 14
                  (str_remove " " (str_remove ":" (str_remove "-" now))))
      as Htime.
    revert Hstem Htime.
    generalize (str_take 10 (str_remove " " (stem_of fn))).
    generalize (str_take 14
                  (str_remove " " (str_remove ":" (str_remove "-" now)))).
    intros t s Hs Ht. rewrite !append_length. simpl. lia.
  - rewrite !has_char_append, !has_char_take by apply has_char_remove.
    reflexivity.
Qed.

(** ** The further properties at work on the scenarios *)

Lemma scan_items_selects_hits_witness :
  scan_items "a.mp4" three_records [] = Ret [7; 8]
  /\ [7; 8] = [] ++ omap (hit_id "a.mp4") three_records.
Proof.
  assert (H : scan_items "a.mp4" three_records [] = Ret [7; 8]) by reflexivity.
  split; [exact H|].
  exact (scan_items_selects_hits "a.mp4" three_records [] [7; 8] H).
Defined.

Lemma lookup_result_comes_from_last_attempt_witness :
  ([7] = []
   /\ [GetLibrary ByFileName "a.mp4"; GetLibrary ByName "a.mp4";
       GetLibrary BySearch "a.mp4"]
      = [] ++ library_requests "a.mp4" tried)
  \/ exists before by_k after items,
       tried = before ++ by_k :: after
       /\ [GetLibrary ByFileName "a.mp4"; GetLibrary ByName "a.mp4";
           GetLibrary BySearch "a.mp4"]
          = [] ++ library_requests "a.mp4" (before ++ [by_k])
       /\ records_of (library_cms library_by_search
                        ([] ++ library_requests "a.mp4" before)
                        (GetLibrary by_k "a.mp4")) = Ret items
       /\ scan_items "a.mp4" items [] = Ret [7]
       /\ [7] <> [].
Proof.
  apply (lookup_result_comes_from_last_attempt
           (library_cms library_by_search) "a.mp4" tried [] [7]).
  vm_compute. reflexivity.
Defined.

Lemma locator_result_has_every_name_witness :
  exists res lg',
    find_media_ids_for_names (library_cms library_by_search) ["a.mp4"; "b.mp4"] []
    = (Ret res, lg')
    /\ forall n, is_Some (res !! n) <-> n ∈ ["a.mp4"; "b.mp4"].
Proof.
  eassert (Hrun : find_media_ids_for_names (library_cms library_by_search)
                    ["a.mp4"; "b.mp4"] [] = _).
  { vm_compute. reflexivity. }
  eexists _, _. split; [exact Hrun|].
  exact (locator_result_has_every_name _ _ _ _ _ Hrun).
Defined.

Lemma locator_without_match_returns_empty_lists_witness :
  exists res,
    find_media_ids_for_names (library_cms library_in_trouble)
      ["a.mp4"; "b.mp4"; "c.mp4"] []
    = (Ret res,
       [] ++ flat_map (fun n => library_requests n tried)
                      ["a.mp4"; "b.mp4"; "c.mp4"])
    /\ forall n, n ∈ ["a.mp4"; "b.mp4"; "c.mp4"] -> res !! n = Some [].
Proof.
  apply (locator_without_match_returns_empty_lists
           (library_cms library_in_trouble) ["a.mp4"; "b.mp4"; "c.mp4"] []).
  intros lg1 b n _. destruct b; simpl.
  - exact I.
  - left. discriminate.
  - destruct (String.eqb n "a.mp4"); [right; left; discriminate|].
    destruct (String.eqb n "b.mp4"); [right; left; discriminate|].
    right. right. reflexivity.
Defined.

Lemma empty_name_matches_every_record_witness :
  matches [("mediaId", PInt 3); ("fileName", PStr "x.mp4")] EmptyString = Ret true
  /\ is_hit EmptyString (PDict [("mediaId", PInt 3); ("fileName", PStr "x.mp4")])
     = truthy (media_id_of [("mediaId", PInt 3); ("fileName", PStr "x.mp4")]).
Proof.
  apply (empty_name_matches_every_record
           [("mediaId", PInt 3); ("fileName", PStr "x.mp4")]).
  right. exists "x.mp4". reflexivity.
Defined.

Lemma reconciler_request_sequence_witness :
  exists res lg',
    assign_media_to_playlist (playlist_cms 200 two_widget_playlist)
      1 [9] [PInt 5] [] = (Ret res, lg')
    /\ exists ws assigns,
         lg' = [] ++ [GetPlaylist 1] ++ (DeleteWidget <$> ws) ++ assigns
         /\ (assigns = [] \/ (assigns = [AssignMedia 1 [9]] /\ [9] <> []))
         /\ (assigned res <> PNone -> assigns = [AssignMedia 1 [9]])
         /\ (length (deleted res) <= length ws)%nat.
Proof.
  eassert (Hrun : assign_media_to_playlist (playlist_cms 200 two_widget_playlist)
                    1 [9] [PInt 5] [] = _).
  { vm_compute. reflexivity. }
  eexists _, _. split; [exact Hrun|].
  exact (reconciler_request_sequence _ _ _ _ _ _ _ Hrun).
Defined.

Lemma reconciler_returns_on_well_formed_playlist_witness :
  exists res lg',
    assign_media_to_playlist (assigning_cms mixed_playlist (Fails "timeout"))
      1 [9] [PInt 5; PStr "x"] [] = (Ret res, lg').
Proof.
  apply (reconciler_returns_on_well_formed_playlist
           (assigning_cms mixed_playlist (Fails "timeout"))
           1 [9] [PInt 5; PStr "x"] [] mixed_playlist []).
  - split; [|reflexivity]. unfold status_is_error. simpl. lia.
  - reflexivity.
  - intros lg1 e H. exact H.
Defined.

Lemma repeated_old_id_is_deleted_again_witness :
  snd (delete_old (playlist_cms 200 two_widget_playlist)
         (<[5 := [10; 11]]> ∅) [PInt 5; PInt 8; PInt 5]
         {| p_deleted := []; p_notes := [] |} [])
  = [DeleteWidget 10; DeleteWidget 11; DeleteWidget 10; DeleteWidget 11].
Proof.
  assert (Hlook : (<[5 := [10; 11]]> ∅ : widget_map) !! 5 = Some [10; 11])
    by (vm_compute; reflexivity).
  pose proof (repeated_old_id_is_deleted_again
                (playlist_cms 200 two_widget_playlist)
                (<[5 := [10; 11]]> ∅) (PInt 5) 5 [10; 11] [PInt 8]
                {| p_deleted := []; p_notes := [] |} [] eq_refl Hlook) as H.
  vm_compute in H. vm_compute. exact H.
Defined.

Lemma built_map_has_no_empty_entry_witness :
  (forall m l,
      (<[5 := [10; 11; 11]]> (<[6 := [11]]> ∅) : widget_map) !! m = Some l ->
      l <> [])
  /\ ((<[5 := [10; 11; 11]]> (<[6 := [11]]> ∅) : widget_map) = ∅
      <-> all_refs mixed_playlist = []).
Proof.
  apply (built_map_has_no_empty_entry mixed_playlist).
  vm_compute. reflexivity.
Defined.

Lemma files_to_upload_lack_an_unchanged_entry_witness :
  diff_known_files demo_mtime demo_listing (Some demo_manifest) = inr demo_changes
  /\ target_files demo_changes
     = List.filter
         (fun n => negb (existsb (known_unchanged demo_mtime n)
                                 (known_items (Some demo_manifest))))
         demo_listing.
Proof.
  assert (H : diff_known_files demo_mtime demo_listing (Some demo_manifest)
              = inr demo_changes) by reflexivity.
  split; [exact H|].
  apply (files_to_upload_lack_an_unchanged_entry _ _ _ _ H).
  repeat constructor; rewrite ?elem_of_cons, ?elem_of_nil; intuition discriminate.
Defined.

Lemma every_known_entry_is_filed_once_witness :
  (length (target_files demo_changes) + length (known_items (Some demo_manifest))
   = length demo_listing
     + length (files_to_replace demo_changes)
     + length (files_to_remove demo_changes))%nat.
Proof.
  apply (every_known_entry_is_filed_once demo_mtime demo_listing
           (Some demo_manifest) demo_changes).
  reflexivity.
Defined.

Lemma early_exit_leaves_nothing_to_replace_witness :
  files_to_replace
    {| target_files := []; files_to_replace := []; files_to_remove := [] |}
  = [].
Proof.
  apply (early_exit_leaves_nothing_to_replace demo_mtime ["a.mp4"]
           (Some quiet_manifest)).
  - reflexivity.
  - repeat constructor; rewrite ?elem_of_cons, ?elem_of_nil; intuition discriminate.
  - reflexivity.
Defined.

Lemma unchanged_file_breaks_the_manifest_witness :
  exists f,
    build_manifest demo_mtime demo_listing demo_format_names = inl (KeyError f)
    /\ f ∈ demo_listing /\ f ∉ target_files demo_changes.
Proof.
  apply (unchanged_file_breaks_the_manifest demo_mtime demo_listing
           (Some demo_manifest) demo_changes demo_format_names "a.mp4").
  - reflexivity.
  - repeat constructor; rewrite ?elem_of_cons, ?elem_of_nil; intuition discriminate.
  - intros f. unfold demo_format_names, demo_changes. simpl.
    rewrite !elem_of_cons, elem_of_nil.
    destruct (decide (f = "b.mp4")) as [->|Hb].
    + rewrite lookup_insert_eq. split; [by left|by eexists].
    + rewrite lookup_insert_ne by done.
      destruct (decide (f = "c.mp4")) as [->|Hc].
      * rewrite lookup_insert_eq. split; [by right; left|by eexists].
      * rewrite lookup_insert_ne, lookup_empty by done.
        split; [by intros [? ?]|]. intros [?|[?|[]]]; congruence.
  - left.
  - reflexivity.
Defined.

Lemma last_named_playlist_wins_witness :
  Some (PInt 9) = last (omap named_id (elements_of demo_playlists)).
Proof.
  apply (last_named_playlist_wins demo_playlists (Some (PInt 9))). reflexivity.
Defined.
